(** * agent-knowledge-distiller: scoring and selection pipeline

    Shallow embedding of
    - [src/services/scorer.service.ts]   : [preFilter], [scoreMemory]
    - [src/services/llm-scorer.service.ts] (OpenAI-compatible version):
      [LLMScorerService.scoreBatch], [scoreSingleBatch], [parseScores],
      [clampScore], [stripCodeFence]
    - [src/services/distiller.service.ts] : [DistillerService.distill],
      [buildReport], [truncate]
    - [src/services/qdrant.service.ts]    : [upsertGoldenMemories],
      [buildFilter]
    - the configuration module ([src/unnamed/part_000]) : [buildDistillConfig]
    - [src/index.ts]  : the options of the [distill] command

    Strings are Rocq [string]s read as sequences of ASCII characters: on
    such strings [String.prototype.length], [trim], [toLowerCase] and
    [includes] are the functions below.  JavaScript numbers are [jsnum]:
    a finite double is an exact rational, plus NaN and the two
    infinities. *)

From Stdlib Require Import String Ascii ZArith QArith Qround List Bool Lia Sorted.
From stdpp Require Import base gmap strings list.
Import ListNotations.
Open Scope string_scope.

(* ------------------------------------------------------------------ *)
(** ** JavaScript strings (ASCII) *)

Module JsString.

(** [c] is one of the characters [String.prototype.trim] removes
    (TAB, LF, VT, FF, CR, SPACE). *)
Definition is_ws (c : ascii) : bool :=
  let n := nat_of_ascii c in (Nat.leb 9 n && Nat.leb n 13) || Nat.eqb n 32.

Definition lower_char (c : ascii) : ascii :=
  let n := nat_of_ascii c in
  if Nat.leb 65 n && Nat.leb n 90 then ascii_of_nat (n + 32) else c.

(** [s.toLowerCase()] *)
Fixpoint toLowerCase (s : string) : string :=
  match s with
  | EmptyString => EmptyString
  | String c s' => String (lower_char c) (toLowerCase s')
  end.

Fixpoint trim_start (s : string) : string :=
  match s with
  | EmptyString => EmptyString
  | String c s' => if is_ws c then trim_start s' else s
  end.

Fixpoint rev_string (s : string) : string :=
  match s with
  | EmptyString => EmptyString
  | String c s' => rev_string s' ++ String c EmptyString
  end.

(** [s.trim()] : whitespace removed at both ends. *)
Definition trim (s : string) : string :=
  rev_string (trim_start (rev_string (trim_start s))).

(** [s.includes(pat)] *)
Fixpoint includes (s pat : string) : bool :=
  if String.prefix pat s then true
  else match s with
       | EmptyString => false
       | String _ s' => includes s' pat
       end.

End JsString.

Import JsString.

(* ------------------------------------------------------------------ *)
(** ** JavaScript numbers *)

Inductive jsnum : Type :=
| JFin (q : Q)
| JNaN
| JPosInf
| JNegInf.

(** [Number.isFinite] *)
Definition isFinite (n : jsnum) : bool :=
  match n with JFin _ => true | _ => false end.

(** [Math.round] on a finite number: nearest integer, halves upwards. *)
Definition math_round (q : Q) : Z := Qfloor (q + (1 # 2)).

(* ------------------------------------------------------------------ *)
(** ** Data model ([src/types/index.ts]) *)

Record AgentMemory : Type := mkAgentMemory {
  id : string;
  text : string;
  namespace : string;
  source_agent : string;
  source_type : string;
  userId : string;
  timestamp : Z;
  vector : option (list jsnum)
}.

Inductive ScoringMethod : Type := Rule | Llm.

(** [ScoredMemory extends AgentMemory]: the spread [...memory] is the
    field [base].  A [MemoryCategory] is a string at run time. *)
Record ScoredMemory : Type := mkScoredMemory {
  base : AgentMemory;
  qualityScore : Z;
  category : string;
  tags : list string;
  distilledText : option string;
  scoringMethod : ScoringMethod;
  llmReasoning : option string
}.

(** [ALLOWED_CATEGORIES]: the closed category set. *)
Definition ALLOWED_CATEGORIES : list string :=
  [ "trading_win_pattern"; "trading_loss_lesson"; "market_insight";
    "bug_fix_pattern"; "architecture_decision"; "code_pattern";
    "process_improvement"; "project_context"; "system_rule"; "noise" ].

Definition allowed_has (c : string) : bool :=
  existsb (String.eqb c) ALLOWED_CATEGORIES.

(* ------------------------------------------------------------------ *)
(** ** [preFilter] *)

(** [/^(ok|yes|no|done|test)$/i.test(text)] *)
Definition junk_token (text : string) : bool :=
  existsb (String.eqb (toLowerCase text)) ["ok"; "yes"; "no"; "done"; "test"].

Definition preFilter (memory : AgentMemory) : bool :=
  let text := trim (text memory) in
  let lower := toLowerCase text in
  if Nat.ltb (String.length text) 20 then false
  else if includes lower "subagent direct hook test" then false
  else if includes lower "skipping:" then false
  else if includes lower "no output" then false
  else if junk_token text then false
  else true.

(* ------------------------------------------------------------------ *)
(** ** [scoreMemory] (heuristic scorer) *)

(** [text.includes(k1) || text.includes(k2) || ...] *)
Definition any_includes (text : string) (ks : list string) : bool :=
  existsb (includes text) ks.

(** One keyword group: when the text matches, add [delta] and push [tag]. *)
Definition keyword_step (text : string) (ks : list string) (delta : Z)
    (tag : string) (st : Z * list string) : Z * list string :=
  let '(score, tags) := st in
  if any_includes text ks then ((score + delta)%Z, app tags [tag])
  else (score, tags).

Definition tags_has (tags : list string) (t : string) : bool :=
  existsb (String.eqb t) tags.

(** Running score and tag list after the keyword groups, the length
    bonuses and the negative deltas (lines [let score = 50] to the
    [test]/[backtest] check). *)
Definition raw_score_tags (text : string) : Z * list string :=
  let st := (50%Z, []) in
  let st := keyword_step text ["win"; "thắng"; "lợi nhuận"] 15 "win" st in
  let st := keyword_step text ["pattern"; "mẫu"] 10 "pattern" st in
  let st := keyword_step text ["fix"; "resolved"; "đã sửa"] 10 "fix" st in
  let st := keyword_step text ["rule"; "quy tắc"; "luật"] 10 "rule" st in
  let st := keyword_step text ["rsi"; "macd"; "sma"] 5 "technical" st in
  let st := keyword_step text ["architecture"; "design"] 10 "architecture" st in
  let st := keyword_step text ["lesson"; "bài học"; "kinh nghiệm"] 15 "lesson" st in
  let '(score, tags) := st in
  let len := String.length text in
  let score := if Nat.ltb 200 len then (score + 5)%Z else score in
  let score := if Nat.ltb 500 len then (score + 5)%Z else score in
  let score := if includes text "error" && includes text "500"
               then (score - 10)%Z else score in
  let score := if Nat.ltb len 30 then (score - 20)%Z else score in
  let score := if includes text "skipping" || includes text "no output"
               then (score - 15)%Z else score in
  let score := if includes text "test" && negb (includes text "backtest")
               then (score - 10)%Z else score in
  (score, tags).

(** The group/tag priority table. *)
Definition group_category (agent text : string) (score : Z)
    (tags : list string) : string :=
  if String.eqb agent "trader" then
    if tags_has tags "win" then "trading_win_pattern"
    else if any_includes text ["thua"; "loss"; "stop loss"] then "trading_loss_lesson"
    else if tags_has tags "technical" || any_includes text ["market"; "thị trường"]
    then "market_insight"
    else if Z.ltb 50 score then "market_insight"
    else "noise"
  else if String.eqb agent "fullstack" then
    if tags_has tags "fix" then "bug_fix_pattern"
    else if tags_has tags "architecture" then "architecture_decision"
    else if Z.ltb 50 score then "code_pattern"
    else "noise"
  else if String.eqb agent "scrum" then
    if Z.ltb 50 score then "process_improvement" else "noise"
  else if String.eqb agent "assistant" then
    if tags_has tags "rule" then "system_rule"
    else if Z.ltb 55 score then "project_context"
    else "noise"
  else "noise".

Definition scoreMemory (memory : AgentMemory) : ScoredMemory :=
  let text := toLowerCase (text memory) in
  let '(score, tags) := raw_score_tags text in
  let category := group_category (source_agent memory) text score tags in
  let category := if tags_has tags "rule" then "system_rule" else category in
  let category := if Z.ltb score 30 then "noise" else category in
  {| base := memory;
     qualityScore := Z.min 100 (Z.max 0 score);
     category := category;
     tags := tags;
     distilledText := None;
     scoringMethod := Rule;
     llmReasoning := None |}.

(* ------------------------------------------------------------------ *)
(** ** [LLMScorerService] *)

(** [clampScore] *)
Definition clampScore (score : jsnum) : Z :=
  match score with
  | JFin q => Z.min 100 (Z.max 0 (math_round q))
  | _ => 50%Z
  end.

(** One element of the JSON array, as the [map] step of [parseScores]
    reads it: [Number(obj.index)], [Number(obj.score)],
    [String(obj.category ?? 'noise')], [String(obj.reasoning ?? 'LLM scoring')]
    (JavaScript built-in conversions). *)
Record LlmItem : Type := mkLlmItem {
  index : jsnum;
  score : jsnum;
  item_category : string;
  reasoning : string
}.

(** One element of the parsed array.  The [map] step of [parseScores]
    reads [obj.index], [obj.score], [obj.category] and [obj.reasoning] of
    every element: on most values this gives the [LlmItem] above (a
    number, string or array element reads [undefined] fields, hence a NaN
    index); on [null] the property access throws a [TypeError], and so
    does a field [Number]/[String] cannot convert to a primitive. *)
Inductive JsonElem : Type :=
| JsonItem (item : LlmItem)
| JsonItemThrows.

(** What [JSON.parse(stripCodeFence(rawText).trim())] yields: a syntax
    error, a non-array value, or an array. *)
Inductive ParsedJson : Type :=
| JsonSyntaxError
| JsonNotArray
| JsonArray (items : list JsonElem).

(** What the [fetch] of one chunk produces. *)
Inductive LlmResponse : Type :=
| FetchRejected (message : string)       (** [fetch] throws *)
| HttpNotOk (status : Z)                 (** [!response.ok] *)
| NoContent                              (** [choices[0].message.content] empty *)
| Content (body : ParsedJson).

(** Exceptions of the [try] block. *)
Inductive Outcome (A : Type) : Type :=
| Return (a : A)
| Throw (message : string).
Arguments Return {A} a.
Arguments Throw {A} message.

(** The [map] step on one element. *)
Definition read_item (e : JsonElem) : Outcome LlmItem :=
  match e with
  | JsonItem item => Return item
  | JsonItemThrows => Throw "TypeError"
  end.

(** [parsed.map(...)]: the first element that throws aborts the map. *)
Fixpoint read_items (items : list JsonElem) : Outcome (list LlmItem) :=
  match items with
  | [] => Return []
  | e :: rest =>
      match read_item e with
      | Throw m => Throw m
      | Return item =>
          match read_items rest with
          | Throw m => Throw m
          | Return l => Return (item :: l)
          end
      end
  end.

Definition parseScores (parsed : ParsedJson) : Outcome (list LlmItem) :=
  match parsed with
  | JsonSyntaxError => Throw "SyntaxError"
  | JsonNotArray => Throw "LLM response is not a JSON array"
  | JsonArray items =>
      match read_items items with
      | Throw m => Throw m
      | Return l =>
          Return (List.filter (fun item => isFinite (index item) && isFinite (score item)) l)
      end
  end.

(** [{ ...fallback, tags: [...fallback.tags, 'llm-fallback'] }] *)
Definition llm_fallback (memory : AgentMemory) : ScoredMemory :=
  let fallback := scoreMemory memory in
  {| base := base fallback;
     qualityScore := qualityScore fallback;
     category := category fallback;
     tags := app (tags fallback) ["llm-fallback"];
     distilledText := distilledText fallback;
     scoringMethod := scoringMethod fallback;
     llmReasoning := llmReasoning fallback |}.

(** The record built from a matching entry. *)
Definition llm_scored (memory : AgentMemory) (llmScore : LlmItem) : ScoredMemory :=
  let category :=
    if allowed_has (item_category llmScore) then item_category llmScore else "noise" in
  {| base := memory;
     qualityScore := clampScore (score llmScore);
     category := category;
     tags := [category; "llm-scored"];
     distilledText := Some (reasoning llmScore);
     scoringMethod := Llm;
     llmReasoning := Some (reasoning llmScore) |}.

(** [s.index === idx] *)
Definition index_is (idx : nat) (s : LlmItem) : bool :=
  match index s with
  | JFin q => Qeq_bool q (inject_Z (Z.of_nat idx))
  | _ => false
  end.

(** [batch.map((memory, idx) => ...)] with [scores.find(...)] *)
Fixpoint match_scores (scores : list LlmItem) (idx : nat)
    (batch : list AgentMemory) : list ScoredMemory :=
  match batch with
  | [] => []
  | memory :: rest =>
      let r := match List.find (index_is idx) scores with
               | None => llm_fallback memory
               | Some llmScore => llm_scored memory llmScore
               end in
      r :: match_scores scores (S idx) rest
  end.

(** The [try] block of [scoreSingleBatch]. *)
Definition scoreSingleBatch_try (response : LlmResponse)
    (batch : list AgentMemory) : Outcome (list ScoredMemory) :=
  match response with
  | FetchRejected m => Throw m
  | HttpNotOk _ => Throw "LLM API error"
  | NoContent => Throw "No content in LLM response"
  | Content parsed =>
      match parseScores parsed with
      | Throw m => Throw m
      | Return scores => Return (match_scores scores 0 batch)
      end
  end.

(** [scoreSingleBatch]: the [catch] maps every record to the fallback. *)
Definition scoreSingleBatch (response : LlmResponse)
    (batch : list AgentMemory) : list ScoredMemory :=
  match scoreSingleBatch_try response batch with
  | Return l => l
  | Throw _ => map llm_fallback batch
  end.

(** The external service: the response to the [k]-th chunk [batch]. *)
Definition LlmService : Type := nat -> list AgentMemory -> LlmResponse.

(** The loop [for (i = 0; i < memories.length; i += batchSize)] with a
    positive [batchSize]; [k] counts the chunks, [rest] is
    [memories.slice(i)], [fuel] bounds the iterations. *)
Fixpoint scoreBatch_loop (service : LlmService) (batchSize : nat)
    (fuel k : nat) (rest : list AgentMemory) : list ScoredMemory :=
  match fuel with
  | O => []
  | S fuel' =>
      match rest with
      | [] => []
      | _ :: _ =>
          let batch := firstn batchSize rest in
          scoreSingleBatch (service k batch) batch
            ++ scoreBatch_loop service batchSize fuel' (S k) (skipn batchSize rest)
      end
  end.

(** [this.batchSize = Math.max(1, batchSize)]: [None] is NaN (from
    [Number.parseInt] of a non-numeric [LLM_BATCH_SIZE]). *)
Definition effective_batch_size (batchSize : option Z) : option nat :=
  match batchSize with
  | Some b => Some (Z.to_nat (Z.max 1 b))
  | None => None
  end.

(** [scoreBatch].  With a NaN batch size the loop runs once on
    [memories.slice(0, NaN)], the empty chunk, then [i] becomes NaN. *)
Definition scoreBatch (service : LlmService) (batchSize : option Z)
    (memories : list AgentMemory) : list ScoredMemory :=
  match effective_batch_size batchSize with
  | Some b => scoreBatch_loop service b (length memories) 0 memories
  | None =>
      match memories with
      | [] => []
      | _ :: _ => scoreSingleBatch (service 0 []) []
      end
  end.

(* ------------------------------------------------------------------ *)
(** ** [DistillerService.distill] *)

Record DistillConfig : Type := mkDistillConfig {
  agents : list string;
  minQualityScore : Z;
  maxOutputPerAgent : Z;
  categories : list string;
  dryRun : bool;
  createSnapshot : bool;
  forceRuleOnly : bool
}.

(** The process environment read by [distill]. *)
Record DistillEnv : Type := mkDistillEnv {
  llm_scoring_enabled : bool;            (** [LLM_SCORING_ENABLED === 'true'] *)
  llm_batch_size : option Z              (** [Number.parseInt(LLM_BATCH_SIZE || '10')] *)
}.

(** The source collection, as [getAllMemories(agent)] returns it. *)
Definition MemoryStore : Type := string -> list AgentMemory.

(** [Array.prototype.slice(0, n)] *)
Definition slice0 {A} (n : Z) (l : list A) : list A :=
  if Z.leb 0 n then firstn (Z.to_nat n) l
  else firstn (Z.to_nat (Z.max 0 (Z.of_nat (length l) + n))) l.

(** [sort((a, b) => b.qualityScore - a.qualityScore)]: [Array.prototype.sort]
    is stable, so the result is the stable descending insertion sort. *)
Fixpoint insert_desc (x : ScoredMemory) (l : list ScoredMemory) : list ScoredMemory :=
  match l with
  | [] => [x]
  | y :: ys =>
      if Z.ltb (qualityScore x) (qualityScore y) then y :: insert_desc x ys
      else x :: y :: ys
  end.

Fixpoint sort_desc (l : list ScoredMemory) : list ScoredMemory :=
  match l with
  | [] => []
  | x :: xs => insert_desc x (sort_desc xs)
  end.

(** [config.categories.includes(memory.category)] *)
Definition category_eligible (config : DistillConfig) (memory : ScoredMemory) : bool :=
  existsb (String.eqb (category memory)) (categories config).

(** The [top] list of one agent. *)
Definition select_top (config : DistillConfig) (scored : list ScoredMemory)
    : list ScoredMemory :=
  slice0 (maxOutputPerAgent config)
    (sort_desc
       (List.filter (category_eligible config)
          (List.filter (fun memory => negb (String.eqb (category memory) "noise"))
             (List.filter (fun memory => Z.leb (minQualityScore config) (qualityScore memory))
                scored)))).

Record AgentStats : Type := mkAgentStats {
  processed : nat;
  kept : nat
}.

(** [DistillReport] without the timestamp and the text previews. *)
Record DistillReport : Type := mkDistillReport {
  totalProcessed : nat;
  totalKept : nat;
  totalDiscarded : Z;
  byAgent : gmap string AgentStats;
  snapshotCreated : bool
}.

(** The scorer of the run: [llmScorer ? llmScorer.scoreBatch(filtered)
    : filtered.map(scoreMemory)]; [k] is the position of the agent in the
    loop, each agent's [scoreBatch] call has its own chunks. *)
Definition score_filtered (env : DistillEnv) (config : DistillConfig)
    (service : nat -> LlmService) (k : nat) (filtered : list AgentMemory)
    : list ScoredMemory :=
  if llm_scoring_enabled env && negb (forceRuleOnly config)
  then scoreBatch (service k) (llm_batch_size env) filtered
  else map scoreMemory filtered.

(** The [for (const agent of config.agents)] loop: [selectedByAgent] is a
    map from agent to its [top] list, assigned (and overwritten for a
    repeated agent) by [selectedByAgent[agent] = top]. *)
Fixpoint distill_loop (env : DistillEnv) (config : DistillConfig)
    (store : MemoryStore) (service : nat -> LlmService) (k : nat)
    (todo : list string) (selectedByAgent : gmap string (list ScoredMemory))
    (report : DistillReport) : gmap string (list ScoredMemory) * DistillReport :=
  match todo with
  | [] => (selectedByAgent, report)
  | agent :: rest =>
      let memories := store agent in
      let filtered := List.filter preFilter memories in
      let scored := score_filtered env config service k filtered in
      let top := select_top config scored in
      let report' :=
        {| totalProcessed := totalProcessed report + length filtered;
           totalKept := totalKept report + length top;
           totalDiscarded := totalDiscarded report;
           byAgent := <[agent := {| processed := length filtered; kept := length top |}]>
                        (byAgent report);
           snapshotCreated := snapshotCreated report |} in
      distill_loop env config store service (S k) rest
        (<[agent := top]> selectedByAgent) report'
  end.

(** [Object.values(selectedByAgent).flat()] as a collection: the claims
    below depend only on which records it holds. *)
Definition flat_values (selectedByAgent : gmap string (list ScoredMemory))
    : list ScoredMemory :=
  concat (map snd (map_to_list selectedByAgent)).

(** A point written to the golden collection. *)
Record GoldenPoint : Type := mkGoldenPoint {
  point_id : string;
  point_vector : list jsnum;
  point_payload : ScoredMemory
}.

(** [upsertGoldenMemories]: the list of [client.upsert] calls, each with
    its chunk of at most 128 points. *)
Fixpoint upsert_chunks (fuel : nat) (points : list GoldenPoint)
    : list (list GoldenPoint) :=
  match fuel with
  | O => []
  | S fuel' =>
      match points with
      | [] => []
      | _ :: _ => firstn 128 points :: upsert_chunks fuel' (skipn 128 points)
      end
  end.

Definition to_point (memory : ScoredMemory) : GoldenPoint :=
  {| point_id := id (base memory);
     point_vector := match vector (base memory) with
                     | Some v => v
                     | None => repeat (JFin 0) 1024
                     end;
     point_payload := memory |}.

Definition upsertGoldenMemories (memories : list ScoredMemory)
    : list (list GoldenPoint) :=
  match memories with
  | [] => []
  | _ :: _ =>
      let points := map to_point memories in
      upsert_chunks (length points) points
  end.

(** Store writes issued by [distill] after the loop. *)
Inductive StoreWrite : Type :=
| CreateGoldenCollection
| Upsert (chunk : list GoldenPoint)
| CreateSnapshot.

Definition initial_report : DistillReport :=
  {| totalProcessed := 0; totalKept := 0; totalDiscarded := 0;
     byAgent := ∅; snapshotCreated := false |}.

(** [distill]: the report, the flat retained set and the writes. *)
Definition distill (env : DistillEnv) (store : MemoryStore)
    (service : nat -> LlmService) (config : DistillConfig)
    : DistillReport * list ScoredMemory * list StoreWrite :=
  let '(selectedByAgent, report) :=
    distill_loop env config store service 0 (agents config) ∅ initial_report in
  let report :=
    {| totalProcessed := totalProcessed report;
       totalKept := totalKept report;
       totalDiscarded := (Z.of_nat (totalProcessed report) - Z.of_nat (totalKept report))%Z;
       byAgent := byAgent report;
       snapshotCreated := snapshotCreated report |} in
  let flatMemories := flat_values selectedByAgent in
  if dryRun config then (report, flatMemories, [])
  else
    let writes := CreateGoldenCollection
                    :: map Upsert (upsertGoldenMemories flatMemories) in
    if createSnapshot config then
      ({| totalProcessed := totalProcessed report;
          totalKept := totalKept report;
          totalDiscarded := totalDiscarded report;
          byAgent := byAgent report;
          snapshotCreated := true |}, flatMemories, app writes [CreateSnapshot])
    else (report, flatMemories, writes).

(** The retained set of a run. *)
Definition retained (env : DistillEnv) (store : MemoryStore)
    (service : nat -> LlmService) (config : DistillConfig) : list ScoredMemory :=
  snd (fst (distill env store service config)).

(** The chunks [memories.slice(i, i + batchSize)] visited by the loop of
    [scoreBatch]. *)
Fixpoint batches (batchSize fuel : nat) (rest : list AgentMemory)
    : list (list AgentMemory) :=
  match fuel with
  | O => []
  | S fuel' =>
      match rest with
      | [] => []
      | _ :: _ => firstn batchSize rest :: batches batchSize fuel' (skipn batchSize rest)
      end
  end.

(** The responses on which the [try] block of [scoreSingleBatch] throws:
    transport failures, responses that do not parse to an array, and
    arrays on which the [map] of [parseScores] throws. *)
Definition response_fails (response : LlmResponse) : bool :=
  match response with
  | Content parsed =>
      match parseScores parsed with
      | Throw _ => true
      | Return _ => false
      end
  | _ => true
  end.

(** [DEFAULT_CATEGORIES] of [src/utils/config.ts]: every category but
    [noise]. *)
Definition DEFAULT_CATEGORIES : list string :=
  [ "trading_win_pattern"; "trading_loss_lesson"; "market_insight";
    "bug_fix_pattern"; "architecture_decision"; "code_pattern";
    "process_improvement"; "project_context"; "system_rule" ].

(** The agent groups [scoreMemory] has a category table for. *)
Definition KNOWN_GROUPS : list string := ["trader"; "fullstack"; "scrum"; "assistant"].

(* ------------------------------------------------------------------ *)
(** ** [stripCodeFence] ([llm-scorer.service.ts]) *)

(** [s.slice(n)] *)
Fixpoint str_drop (n : nat) (s : string) : string :=
  match n, s with
  | O, _ => s
  | S n', String _ s' => str_drop n' s'
  | S _, EmptyString => EmptyString
  end.

(** [\s*```] matches at the start of [t].  [\s*] is greedy and a
    backtick is not white space, so only the whole white-space run can be
    followed by the backticks. *)
Definition fence_closes (t : string) : bool := String.prefix "```" (trim_start t).

(** [([\s\S]*?)\s*```]: the lazy group is the shortest prefix of [t]
    after which the closing fence matches. *)
Fixpoint lazy_capture (t : string) : option string :=
  if fence_closes t then Some EmptyString
  else match t with
       | EmptyString => None
       | String c t' => option_map (String c) (lazy_capture t')
       end.

(** [\s*([\s\S]*?)\s*```].  The greedy [\s*] first takes the whole
    white-space run; when the group fails after it, shorter runs fail as
    well, since they only put white space in front of the same closing
    positions. *)
Definition fence_body (t : string) : option string := lazy_capture (trim_start t).

(** The pattern anchored at the start of [s]: [```], then [(?:json)?]
    (greedy, and case-insensitive under the [i] flag), then the body. *)
Definition fence_match_at (s : string) : option string :=
  if String.prefix "```" s then
    let rest := str_drop 3 s in
    let with_tag := if String.prefix "json" (toLowerCase rest)
                    then fence_body (str_drop 4 rest) else None in
    match with_tag with
    | Some c => Some c
    | None => fence_body rest
    end
  else None.

(** [text.match(/```(?:json)?\s*([\s\S]*?)\s*```/i)?.[1]]: the match at
    the leftmost position where the pattern matches. *)
Fixpoint fence_match (s : string) : option string :=
  match fence_match_at s with
  | Some c => Some c
  | None => match s with
            | EmptyString => None
            | String _ s' => fence_match s'
            end
  end.

(** [if (fenced?.[1]) return fenced[1]; return text;]: an empty group is
    falsy. *)
Definition stripCodeFence (text : string) : string :=
  match fence_match text with
  | Some (String _ _ as body) => body
  | _ => text
  end.

(* ------------------------------------------------------------------ *)
(** ** Report previews ([distiller.service.ts]) *)

(** [s.slice(0, n)] on a string. *)
Definition str_slice0 (n : Z) (s : string) : string :=
  if Z.leb 0 n then substring 0 (Z.to_nat n) s
  else substring 0 (Z.to_nat (Z.max 0 (Z.of_nat (String.length s) + n))) s.

(** [truncate] *)
Definition truncate (text : string) (length : Z) : string :=
  if Z.ltb length (Z.of_nat (String.length text))
  then (str_slice0 (length - 3) text ++ "...")
  else text.

(** An element of [report.byAgent[agent].topMemories]. *)
Record TopMemory : Type := mkTopMemory {
  top_text : string;
  top_score : Z;
  top_category : string
}.

(** [top.slice(0, 5).map((memory) => ({ text: truncate(memory.text, 160),
    score: memory.qualityScore, category: memory.category }))] *)
Definition topMemories (top : list ScoredMemory) : list TopMemory :=
  map (fun memory => {| top_text := truncate (text (base memory)) 160;
                        top_score := qualityScore memory;
                        top_category := category memory |})
      (slice0 5 top).

(* ------------------------------------------------------------------ *)
(** ** [DistillerService.buildReport] *)

Definition buildReport_config (agents : list string) : DistillConfig :=
  {| agents := agents;
     minQualityScore := 60;
     maxOutputPerAgent := 5;
     categories := [ "trading_win_pattern"; "trading_loss_lesson"; "market_insight";
                     "bug_fix_pattern"; "architecture_decision"; "code_pattern";
                     "process_improvement"; "project_context"; "system_rule" ];
     dryRun := true;
     createSnapshot := false;
     forceRuleOnly := true |}.

Definition buildReport (env : DistillEnv) (store : MemoryStore)
    (service : nat -> LlmService) (agents : list string)
    : DistillReport * list ScoredMemory * list StoreWrite :=
  distill env store service (buildReport_config agents).

(* ------------------------------------------------------------------ *)
(** ** [buildDistillConfig] ([src/utils/config.ts]) and the CLI *)

Definition DEFAULT_AGENTS : list string := ["trader"; "fullstack"; "assistant"; "scrum"].

(** The [options] argument of [buildDistillConfig]; [None] is
    [undefined]. *)
Module DistillOptions.
Record t : Type := mk {
  agents : option (list string);
  minScore : option Z;
  maxPerAgent : option Z;
  dryRun : option bool;
  createSnapshot : option bool
}.
End DistillOptions.

(** The result has no [forceRuleOnly] field: [!config.forceRuleOnly] is
    then [true], the value [false] below. *)
Definition buildDistillConfig (options : DistillOptions.t) : DistillConfig :=
  {| agents := match DistillOptions.agents options with
               | Some ((_ :: _) as a) => a
               | _ => DEFAULT_AGENTS
               end;
     minQualityScore := match DistillOptions.minScore options with
                        | Some n => n
                        | None => 60%Z
                        end;
     maxOutputPerAgent := match DistillOptions.maxPerAgent options with
                          | Some n => n
                          | None => 100%Z
                          end;
     categories := DEFAULT_CATEGORIES;
     dryRun := match DistillOptions.dryRun options with
               | Some b => b
               | None => false
               end;
     createSnapshot := match DistillOptions.createSnapshot options with
                       | Some b => b
                       | None => false
                       end;
     forceRuleOnly := false |}.

(** The options of the [distill] command of [src/index.ts] (numbers as
    given by [parseNumber], taken integral here). *)
Module CliOptions.
Record t : Type := mk {
  agent : option string;
  minScore : option Z;
  maxPerAgent : option Z;
  dryRun : bool;
  snapshot : bool;
  llm : bool;
  ruleOnly : bool
}.
End CliOptions.

(** [process.env.LLM_SCORING_ENABLED] after the two assignments of the
    [distill] action; [prev] is its value before. *)
Definition cli_scoring_env (prev : option string) (options : CliOptions.t)
    : option string :=
  let env := if CliOptions.llm options then Some "true" else prev in
  if CliOptions.ruleOnly options then Some "false" else env.

(** [options.agent ? [String(options.agent)] : DEFAULT_AGENTS]: the empty
    string is falsy. *)
Definition cli_agents (options : CliOptions.t) : list string :=
  match CliOptions.agent options with
  | Some a => if String.eqb a "" then DEFAULT_AGENTS else [a]
  | None => DEFAULT_AGENTS
  end.

(** The [buildDistillConfig] call of the action; the [forceRuleOnly] it
    passes is not read by [buildDistillConfig]. *)
Definition cli_config (options : CliOptions.t) : DistillConfig :=
  buildDistillConfig
    {| DistillOptions.agents := Some (cli_agents options);
       DistillOptions.minScore := CliOptions.minScore options;
       DistillOptions.maxPerAgent := CliOptions.maxPerAgent options;
       DistillOptions.dryRun := Some (CliOptions.dryRun options);
       DistillOptions.createSnapshot := Some (CliOptions.snapshot options) |}.

(** What [distill] reads from the environment:
    [LLM_SCORING_ENABLED === 'true'] and the parsed [LLM_BATCH_SIZE]. *)
Definition read_env (llm_scoring : option string) (batch_size : option Z) : DistillEnv :=
  {| llm_scoring_enabled := match llm_scoring with
                            | Some s => String.eqb s "true"
                            | None => false
                            end;
     llm_batch_size := batch_size |}.

(** The [distill] command: [distillerService.distill(config)]. *)
Definition cli_distill (prev : option string) (batch_size : option Z)
    (store : MemoryStore) (service : nat -> LlmService) (options : CliOptions.t)
    : DistillReport * list ScoredMemory * list StoreWrite :=
  distill (read_env (cli_scoring_env prev options) batch_size) store service
    (cli_config options).

(* ------------------------------------------------------------------ *)
(** ** [QdrantService.buildFilter] *)

(** The [must] conditions as (key, value) pairs; [None] is [undefined].
    [if (agent)] and [if (namespace)] treat the empty string as absent. *)
Definition buildFilter (agent namespace : option string)
    : option (list (string * string)) :=
  let must :=
    app (match agent with
         | Some a => if String.eqb a "" then [] else [("source_agent", a)]
         | None => []
         end)
        (match namespace with
         | Some n => if String.eqb n "" then [] else [("namespace", n)]
         | None => []
         end) in
  match must with
  | [] => None
  | _ :: _ => Some must
  end.

(* ================================================================== *)
(** * Properties *)

(* ------------------------------------------------------------------ *)
(** ** Helper lemmas: strings and categories *)

Lemma length_toLowerCase (s : string) :
  String.length (toLowerCase s) = String.length s.
Proof. induction s as [|c s IH]; simpl; auto. Qed.

Lemma length_string_append (s1 s2 : string) :
  String.length (s1 ++ s2) = String.length s1 + String.length s2.
Proof. induction s1 as [|c s1 IH]; simpl; auto. Qed.

Lemma length_rev_string (s : string) :
  String.length (rev_string s) = String.length s.
Proof.
  induction s as [|c s IH]; simpl; [reflexivity|].
  rewrite length_string_append, IH. simpl. lia.
Qed.

Lemma length_trim_start (s : string) :
  String.length (trim_start s) <= String.length s.
Proof.
  induction s as [|c s IH]; simpl; [lia|]. destruct (is_ws c); simpl; lia.
Qed.

Lemma length_trim (s : string) : String.length (trim s) <= String.length s.
Proof.
  unfold trim. rewrite length_rev_string.
  pose proof (length_trim_start (rev_string (trim_start s))) as H1.
  rewrite length_rev_string in H1.
  pose proof (length_trim_start s) as H2. lia.
Qed.

Lemma string_append_cons (c : ascii) (s1 s2 : string) :
  (String c s1 ++ s2) = String c (s1 ++ s2).
Proof. reflexivity. Qed.

Lemma string_append_nil_l (s : string) : ("" ++ s) = s.
Proof. reflexivity. Qed.

Lemma string_append_assoc (s1 s2 s3 : string) :
  (s1 ++ (s2 ++ s3)) = ((s1 ++ s2) ++ s3).
Proof.
  induction s1 as [|c s1 IH]; [reflexivity|].
  rewrite !string_append_cons, IH. reflexivity.
Qed.

Lemma string_append_nil_r (s : string) : (s ++ "") = s.
Proof.
  induction s as [|c s IH]; [reflexivity|].
  rewrite string_append_cons, IH. reflexivity.
Qed.

Lemma rev_string_append (s1 s2 : string) :
  rev_string (s1 ++ s2) = (rev_string s2 ++ rev_string s1).
Proof.
  induction s1 as [|c s1 IH].
  - rewrite string_append_nil_l. simpl. rewrite string_append_nil_r. reflexivity.
  - rewrite string_append_cons. simpl. rewrite IH, string_append_assoc. reflexivity.
Qed.

Lemma rev_string_involutive (s : string) : rev_string (rev_string s) = s.
Proof.
  induction s as [|c s IH]; [reflexivity|].
  simpl. rewrite rev_string_append, IH. reflexivity.
Qed.

Lemma toLowerCase_append (s1 s2 : string) :
  toLowerCase (s1 ++ s2) = (toLowerCase s1 ++ toLowerCase s2).
Proof.
  induction s1 as [|c s1 IH]; [reflexivity|].
  rewrite string_append_cons. simpl. rewrite IH. reflexivity.
Qed.

Lemma toLowerCase_rev (s : string) :
  toLowerCase (rev_string s) = rev_string (toLowerCase s).
Proof.
  induction s as [|c s IH]; simpl; [reflexivity|].
  rewrite toLowerCase_append, IH. reflexivity.
Qed.

(** Lower-casing neither creates nor removes whitespace. *)
Lemma is_ws_lower_char (c : ascii) : is_ws (lower_char c) = is_ws c.
Proof.
  destruct c as [b0 b1 b2 b3 b4 b5 b6 b7].
  destruct b0, b1, b2, b3, b4, b5, b6, b7; reflexivity.
Qed.

Lemma prefix_spec (p s : string) :
  String.prefix p s = true <-> exists b, s = (p ++ b).
Proof.
  revert s. induction p as [|c p IH]; intros s.
  - split; [intros _; exists s; reflexivity | intros _; destruct s; reflexivity].
  - destruct s as [|d s]; simpl.
    + split; [discriminate | intros (b & Hb); discriminate Hb].
    + destruct (ascii_dec c d) as [<-|Hne].
      * rewrite IH. split; intros (b & Hb); exists b;
          [rewrite Hb; reflexivity | injection Hb as Hb; exact Hb].
      * split; [discriminate|]. intros (b & Hb). injection Hb as Hcd _. congruence.
Qed.

Lemma includes_unfold (s p : string) :
  includes s p =
  if String.prefix p s then true
  else match s with
       | EmptyString => false
       | String _ s' => includes s' p
       end.
Proof. destruct s; reflexivity. Qed.

Lemma includes_spec (s p : string) :
  includes s p = true <-> exists a b, s = (a ++ (p ++ b)).
Proof.
  induction s as [|c s IH]; rewrite includes_unfold.
  - destruct (String.prefix p "") eqn:E.
    + split; [intros _ | reflexivity].
      apply prefix_spec in E as (b & Hb). exists "", b. exact Hb.
    + split; [discriminate|]. intros (a & b & Hab).
      destruct a; [|discriminate Hab].
      rewrite string_append_nil_l in Hab.
      rewrite <- E. apply prefix_spec. eauto.
  - destruct (String.prefix p (String c s)) eqn:E.
    + split; [intros _ | reflexivity].
      apply prefix_spec in E as (b & Hb). exists "", b. exact Hb.
    + rewrite IH. split.
      * intros (a & b & Hab). exists (String c a), b.
        rewrite Hab, string_append_cons. reflexivity.
      * intros (a & b & Hab). destruct a as [|d a].
        -- rewrite string_append_nil_l in Hab. exfalso.
           assert (Hp : String.prefix p (String c s) = true)
             by (apply prefix_spec; eauto).
           congruence.
        -- rewrite string_append_cons in Hab. injection Hab as _ Hab. eauto.
Qed.

Lemma includes_rev (s p : string) :
  includes (rev_string s) (rev_string p) = includes s p.
Proof.
  apply eq_true_iff_eq. rewrite !includes_spec. split.
  - intros (a & b & Hab).
    exists (rev_string b), (rev_string a).
    rewrite <- (rev_string_involutive s), Hab.
    rewrite !rev_string_append, rev_string_involutive, string_append_assoc.
    reflexivity.
  - intros (a & b & Hab).
    exists (rev_string b), (rev_string a).
    rewrite Hab, !rev_string_append, string_append_assoc. reflexivity.
Qed.

(** Leading whitespace cannot hold a pattern that starts with a visible
    character. *)
Lemma includes_trim_start (s p : string) (c0 : ascii) (p' : string) :
  p = String c0 p' -> is_ws c0 = false ->
  includes (toLowerCase (trim_start s)) p = includes (toLowerCase s) p.
Proof.
  intros -> Hc0.
  induction s as [|c s IH]; simpl; [reflexivity|].
  destruct (is_ws c) eqn:Hc; [|reflexivity].
  rewrite IH. simpl.
  destruct (ascii_dec c0 (lower_char c)) as [Heq|_]; [|reflexivity].
  rewrite Heq, is_ws_lower_char in Hc0. congruence.
Qed.

(** Trimming keeps every pattern whose first and last characters are
    not whitespace. *)
Lemma includes_trim (s p : string) (c0 c1 : ascii) (p' p'' : string) :
  p = String c0 p' -> is_ws c0 = false ->
  rev_string p = String c1 p'' -> is_ws c1 = false ->
  includes (toLowerCase (trim s)) p = includes (toLowerCase s) p.
Proof.
  intros Hp Hc0 Hr Hc1. unfold trim.
  rewrite toLowerCase_rev, <- (rev_string_involutive p), includes_rev.
  rewrite (includes_trim_start _ _ c1 p'' Hr Hc1).
  rewrite toLowerCase_rev, includes_rev.
  rewrite rev_string_involutive.
  exact (includes_trim_start s p c0 p' Hp Hc0).
Qed.

Lemma allowed_has_In (c : string) :
  allowed_has c = true -> In c ALLOWED_CATEGORIES.
Proof.
  unfold allowed_has. rewrite existsb_exists.
  intros (x & Hx & He). apply String.eqb_eq in He. subst. exact Hx.
Qed.

Lemma tags_has_In (tags : list string) (t : string) :
  tags_has tags t = true <-> In t tags.
Proof.
  unfold tags_has. rewrite existsb_exists. split.
  - intros (x & Hx & He). apply String.eqb_eq in He. subst. exact Hx.
  - intros H. exists t. split; [exact H | apply String.eqb_refl].
Qed.

Lemma group_category_allowed (agent text : string) (score : Z) (tags : list string) :
  allowed_has (group_category agent text score tags) = true.
Proof. unfold group_category. repeat case_match; reflexivity. Qed.

(** The fields of [scoreMemory] in terms of [raw_score_tags]. *)
Lemma scoreMemory_fields (memory : AgentMemory) :
  let '(score, tags) := raw_score_tags (toLowerCase (text memory)) in
  scoreMemory memory =
  {| base := memory;
     qualityScore := Z.min 100 (Z.max 0 score);
     category :=
       if Z.ltb score 30 then "noise"
       else if tags_has tags "rule" then "system_rule"
       else group_category (source_agent memory) (toLowerCase (text memory)) score tags;
     tags := tags;
     distilledText := None;
     scoringMethod := Rule;
     llmReasoning := None |}.
Proof.
  unfold scoreMemory.
  destruct (raw_score_tags (toLowerCase (text memory))) as [score tags].
  destruct (Z.ltb score 30), (tags_has tags "rule"); reflexivity.
Qed.

(** Clamping keeps the side of 30. *)
Lemma clamp_lt_30 (score : Z) :
  Z.ltb (Z.min 100 (Z.max 0 score)) 30 = Z.ltb score 30.
Proof.
  destruct (Z.ltb score 30) eqn:E.
  - apply Z.ltb_lt in E. apply Z.ltb_lt. lia.
  - apply Z.ltb_ge in E. apply Z.ltb_ge. lia.
Qed.

Lemma scoreMemory_allowed (memory : AgentMemory) :
  allowed_has (category (scoreMemory memory)) = true.
Proof.
  pose proof (scoreMemory_fields memory) as H.
  destruct (raw_score_tags (toLowerCase (text memory))) as [score tags].
  rewrite H; simpl.
  destruct (Z.ltb score 30); [reflexivity|].
  destruct (tags_has tags "rule"); [reflexivity|].
  apply group_category_allowed.
Qed.

Lemma scoreMemory_range (memory : AgentMemory) :
  (0 <= qualityScore (scoreMemory memory) <= 100)%Z.
Proof.
  pose proof (scoreMemory_fields memory) as H.
  destruct (raw_score_tags (toLowerCase (text memory))) as [score tags].
  rewrite H; simpl. lia.
Qed.

(* ------------------------------------------------------------------ *)
(** ** Helper lemmas: the LLM scorer *)

Lemma clampScore_range (n : jsnum) : (0 <= clampScore n <= 100)%Z.
Proof. destruct n; simpl; lia. Qed.

Lemma llm_scored_allowed (memory : AgentMemory) (e : LlmItem) :
  allowed_has (category (llm_scored memory e)) = true.
Proof.
  unfold llm_scored; simpl.
  destruct (allowed_has (item_category e)) eqn:E; [exact E | reflexivity].
Qed.

Lemma read_items_map (its : list LlmItem) : read_items (map JsonItem its) = Return its.
Proof. induction its as [|it its IH]; simpl; [reflexivity|]. rewrite IH. reflexivity. Qed.

Lemma read_items_throws (items : list JsonElem) :
  In JsonItemThrows items -> exists m, read_items items = Throw m.
Proof.
  induction items as [|e items IH]; intros H; [contradiction|].
  destruct H as [->|H]; simpl; [eauto|].
  destruct e as [it|]; simpl; [|eauto].
  destruct (IH H) as [m ->]. eauto.
Qed.

Lemma read_items_return (items : list JsonElem) (l : list LlmItem) :
  read_items items = Return l -> items = map JsonItem l.
Proof.
  revert l. induction items as [|e items IH]; intros l H; simpl in H.
  - injection H as <-. reflexivity.
  - destruct e as [it|]; simpl in H; [|discriminate].
    destruct (read_items items) as [l'|m]; [|discriminate].
    injection H as <-. simpl. rewrite (IH l' eq_refl). reflexivity.
Qed.

Lemma match_scores_In (scores : list LlmItem) (idx : nat) (batch : list AgentMemory)
    (r : ScoredMemory) :
  In r (match_scores scores idx batch) ->
  (exists memory, r = llm_fallback memory) \/
  (exists memory e, r = llm_scored memory e).
Proof.
  revert idx. induction batch as [|memory batch IH]; intros idx H; simpl in H.
  - contradiction.
  - destruct H as [H|H].
    + destruct (List.find (index_is idx) scores) as [e|]; subst.
      * right. eauto.
      * left. eauto.
    + exact (IH (S idx) H).
Qed.

Lemma scoreSingleBatch_In (response : LlmResponse) (batch : list AgentMemory)
    (r : ScoredMemory) :
  In r (scoreSingleBatch response batch) ->
  (exists memory, r = llm_fallback memory) \/
  (exists memory e, r = llm_scored memory e).
Proof.
  unfold scoreSingleBatch, scoreSingleBatch_try.
  destruct response as [m|s| |parsed];
    try (intros H; apply in_map_iff in H as (memory & <- & _); left; eauto).
  destruct (parseScores parsed) as [scores|m];
    [apply match_scores_In | intros H; apply in_map_iff in H as (memory & <- & _); left; eauto].
Qed.

Lemma length_match_scores (scores : list LlmItem) (idx : nat) (batch : list AgentMemory) :
  length (match_scores scores idx batch) = length batch.
Proof.
  revert idx. induction batch as [|m batch IH]; intros idx; simpl; auto.
Qed.

Lemma length_scoreSingleBatch (response : LlmResponse) (batch : list AgentMemory) :
  length (scoreSingleBatch response batch) = length batch.
Proof.
  unfold scoreSingleBatch, scoreSingleBatch_try.
  destruct response as [m|s| |parsed]; [..|destruct (parseScores parsed)];
    rewrite ?length_map; auto using length_match_scores.
Qed.

Lemma nth_error_match_scores (scores : list LlmItem) (batch : list AgentMemory)
    (k idx : nat) (memory : AgentMemory) :
  nth_error batch idx = Some memory ->
  nth_error (match_scores scores k batch) idx =
  Some (match List.find (index_is (k + idx)) scores with
        | None => llm_fallback memory
        | Some e => llm_scored memory e
        end).
Proof.
  revert k idx. induction batch as [|m batch IH]; intros k idx H.
  - destruct idx; discriminate.
  - destruct idx as [|idx]; simpl in H |- *.
    + injection H as <-. rewrite Nat.add_0_r. reflexivity.
    + rewrite (IH (S k) idx H). rewrite Nat.add_succ_r. reflexivity.
Qed.

Lemma scoreBatch_loop_In (service : LlmService) (b fuel k : nat)
    (rest : list AgentMemory) (r : ScoredMemory) :
  In r (scoreBatch_loop service b fuel k rest) ->
  exists response batch, In r (scoreSingleBatch response batch).
Proof.
  revert k rest. induction fuel as [|fuel IH]; intros k rest H; simpl in H.
  - contradiction.
  - destruct rest as [|m rest']; [contradiction|].
    apply in_app_or in H as [H|H]; eauto.
Qed.

Lemma scoreBatch_In (service : LlmService) (batchSize : option Z)
    (memories : list AgentMemory) (r : ScoredMemory) :
  In r (scoreBatch service batchSize memories) ->
  exists response batch, In r (scoreSingleBatch response batch).
Proof.
  unfold scoreBatch. destruct (effective_batch_size batchSize) as [b|].
  - apply scoreBatch_loop_In.
  - destruct memories; [contradiction | eauto].
Qed.

(** Every record out of the LLM scorer is a fallback or a matched record. *)
Lemma llm_output_well_formed (r : ScoredMemory) :
  ((exists memory, r = llm_fallback memory) \/
   (exists memory e, r = llm_scored memory e)) ->
  (0 <= qualityScore r <= 100)%Z /\ In (category r) ALLOWED_CATEGORIES.
Proof.
  intros [(memory & ->) | (memory & e & ->)]; split.
  - apply scoreMemory_range.
  - apply allowed_has_In, scoreMemory_allowed.
  - apply clampScore_range.
  - apply allowed_has_In, llm_scored_allowed.
Qed.

(* ------------------------------------------------------------------ *)
(** ** Helper lemmas: the chunk loop of [scoreBatch] *)

Lemma batches_nil (b fuel : nat) : batches b fuel [] = [].
Proof. destruct fuel; reflexivity. Qed.

Lemma scoreSingleBatch_fails (response : LlmResponse) (batch : list AgentMemory) :
  response_fails response = true ->
  scoreSingleBatch response batch = map llm_fallback batch.
Proof.
  unfold response_fails, scoreSingleBatch, scoreSingleBatch_try.
  destruct response as [m|s| |parsed]; intros H; try reflexivity.
  destruct (parseScores parsed); [discriminate H | reflexivity].
Qed.

Lemma length_scoreBatch_loop (service : LlmService) (b fuel k : nat)
    (rest : list AgentMemory) :
  1 <= b -> length rest <= fuel ->
  length (scoreBatch_loop service b fuel k rest) = length rest.
Proof.
  intros Hb. revert k rest.
  induction fuel as [|fuel IH]; intros k rest Hle; simpl.
  - destruct rest; simpl in *; lia.
  - destruct rest as [|m rest']; [reflexivity|].
    rewrite length_app, length_scoreSingleBatch, IH.
    + rewrite <- length_app, firstn_skipn. reflexivity.
    + rewrite length_skipn. simpl in *. lia.
Qed.

(** The outputs of the [k]-th chunk sit at positions [k * b] onwards. *)
Lemma scoreBatch_loop_chunk (service : LlmService) (b fuel : nat)
    (rest : list AgentMemory) (k0 k : nat) (chunk : list AgentMemory) :
  1 <= b ->
  nth_error (batches b fuel rest) k = Some chunk ->
  firstn (length chunk) (skipn (k * b) (scoreBatch_loop service b fuel k0 rest)) =
  scoreSingleBatch (service (k0 + k) chunk) chunk.
Proof.
  intros Hb. revert rest k0 k.
  induction fuel as [|fuel IH]; intros rest k0 k Hk; simpl in Hk.
  - destruct k; discriminate.
  - destruct rest as [|m rest']; [destruct k; discriminate|].
    simpl scoreBatch_loop.
    set (rest := m :: rest') in *.
    destruct k as [|k]; simpl in Hk.
    + injection Hk as <-. rewrite Nat.mul_0_l. change (skipn 0 ?l) with l. rewrite Nat.add_0_r.
      rewrite firstn_app, <- (length_scoreSingleBatch (service k0 (firstn b rest))).
      rewrite Nat.sub_diag, firstn_all. simpl. apply app_nil_r.
    + assert (Hlen : b <= length rest).
      { destruct (Nat.le_gt_cases b (length rest)) as [H|H]; [exact H|].
        rewrite (skipn_all2 (n:=b) rest) in Hk by lia.
        rewrite batches_nil in Hk. destruct k; discriminate. }
      rewrite skipn_app, length_scoreSingleBatch, length_firstn.
      rewrite (skipn_all2 (n:=S k * b)) by (rewrite length_scoreSingleBatch, length_firstn; lia).
      replace (S k * b - Nat.min b (length rest)) with (k * b) by lia.
      simpl app. rewrite (IH _ (S k0) k Hk).
      rewrite Nat.add_succ_r. reflexivity.
Qed.

Lemma effective_batch_size_pos (batchSize : option Z) (b : nat) :
  effective_batch_size batchSize = Some b -> 1 <= b.
Proof.
  destruct batchSize as [z|]; simpl; [|discriminate].
  intros H. injection H as <-. lia.
Qed.

(* ------------------------------------------------------------------ *)
(** ** Helper lemmas: selection *)

Lemma In_firstn_incl {A} (n : nat) (l : list A) (x : A) :
  In x (firstn n l) -> In x l.
Proof.
  intros H. rewrite <- (firstn_skipn n l). apply in_or_app. left. exact H.
Qed.

Lemma slice0_In {A} (n : Z) (l : list A) (x : A) :
  In x (slice0 n l) -> In x l.
Proof. unfold slice0. destruct (Z.leb 0 n); apply In_firstn_incl. Qed.

Lemma insert_desc_In (x y : ScoredMemory) (l : list ScoredMemory) :
  In y (insert_desc x l) <-> x = y \/ In y l.
Proof.
  induction l as [|z l IH]; simpl.
  - tauto.
  - destruct (Z.ltb (qualityScore x) (qualityScore z)); simpl; rewrite ?IH; intuition.
Qed.

Lemma sort_desc_In (y : ScoredMemory) (l : list ScoredMemory) :
  In y (sort_desc l) <-> In y l.
Proof.
  induction l as [|x l IH]; simpl; [tauto|].
  rewrite insert_desc_In, IH. intuition.
Qed.

Lemma select_top_In (config : DistillConfig) (scored : list ScoredMemory)
    (r : ScoredMemory) :
  In r (select_top config scored) ->
  In r scored /\ (minQualityScore config <= qualityScore r)%Z /\
  category r <> "noise" /\ category_eligible config r = true.
Proof.
  unfold select_top. intros H.
  apply slice0_In in H. rewrite sort_desc_In in H.
  apply filter_In in H as [H Hcat].
  apply filter_In in H as [H Hnoise].
  apply filter_In in H as [H Hmin].
  apply Z.leb_le in Hmin.
  apply negb_true_iff, String.eqb_neq in Hnoise.
  auto.
Qed.

(** Each retained record comes from the [top] list of one agent. *)
Definition from_some_top (env : DistillEnv) (config : DistillConfig)
    (store : MemoryStore) (service : nat -> LlmService) (r : ScoredMemory) : Prop :=
  exists k agent,
    In r (select_top config
            (score_filtered env config service k (List.filter preFilter (store agent)))).

Lemma distill_loop_tops (env : DistillEnv) (config : DistillConfig)
    (store : MemoryStore) (service : nat -> LlmService) (k : nat)
    (todo : list string) (sel : gmap string (list ScoredMemory))
    (report : DistillReport) :
  (forall agent l r, sel !! agent = Some l -> In r l ->
     from_some_top env config store service r) ->
  forall agent l r,
    (distill_loop env config store service k todo sel report).1 !! agent = Some l ->
    In r l -> from_some_top env config store service r.
Proof.
  revert k sel report.
  induction todo as [|a todo IH]; intros k sel report Hinv; simpl; [exact Hinv|].
  apply IH. intros agent l r Hl Hr.
  apply lookup_insert_Some in Hl as [[<- <-] | [_ Hl]].
  - exists k, a. exact Hr.
  - exact (Hinv agent l r Hl Hr).
Qed.

Lemma flat_values_In (sel : gmap string (list ScoredMemory)) (r : ScoredMemory) :
  In r (flat_values sel) -> exists agent l, sel !! agent = Some l /\ In r l.
Proof.
  unfold flat_values. intros H.
  apply in_concat in H as (l & Hl & Hr).
  apply in_map_iff in Hl as ([agent l'] & Heq & Hin). simpl in Heq. subst l'.
  apply list_elem_of_In, elem_of_map_to_list in Hin.
  eauto.
Qed.

Lemma retained_from_top (env : DistillEnv) (store : MemoryStore)
    (service : nat -> LlmService) (config : DistillConfig) (r : ScoredMemory) :
  In r (retained env store service config) ->
  from_some_top env config store service r.
Proof.
  unfold retained, distill.
  pose proof (distill_loop_tops env config store service 0 (agents config) ∅
                initial_report) as Hloop.
  destruct (distill_loop env config store service 0 (agents config) ∅ initial_report)
    as [sel report] eqn:E.
  simpl in Hloop.
  intros H.
  assert (Hflat : In r (flat_values sel))
    by (destruct (dryRun config), (createSnapshot config); exact H).
  apply flat_values_In in Hflat as (agent & l & Hl & Hr).
  eapply Hloop; [|exact Hl|exact Hr].
  intros a l' r' Habs. rewrite lookup_empty in Habs. discriminate.
Qed.

(** Descending order of [qualityScore], as the comparator of [distill]
    sorts. *)
Definition score_ge (x y : ScoredMemory) : Prop :=
  (qualityScore y <= qualityScore x)%Z.

Lemma insert_desc_sorted (x : ScoredMemory) (l : list ScoredMemory) :
  StronglySorted score_ge l -> StronglySorted score_ge (insert_desc x l).
Proof.
  induction l as [|z l IH]; intros Hs; simpl.
  - constructor; [constructor | constructor].
  - apply StronglySorted_inv in Hs as [Hl Hz].
    destruct (Z.ltb (qualityScore x) (qualityScore z)) eqn:Hlt.
    + apply Z.ltb_lt in Hlt. constructor; [exact (IH Hl)|].
      apply List.Forall_forall. intros y Hy. apply insert_desc_In in Hy as [<-|Hy].
      * unfold score_ge. lia.
      * rewrite List.Forall_forall in Hz. exact (Hz y Hy).
    + apply Z.ltb_ge in Hlt. constructor; [constructor; assumption|].
      constructor; [unfold score_ge; lia|].
      apply List.Forall_forall. intros y Hy. rewrite List.Forall_forall in Hz.
      specialize (Hz y Hy). unfold score_ge in *. lia.
Qed.

Lemma sort_desc_sorted (l : list ScoredMemory) : StronglySorted score_ge (sort_desc l).
Proof.
  induction l as [|x l IH]; simpl; [constructor|]. apply insert_desc_sorted, IH.
Qed.

Lemma insert_desc_top (x : ScoredMemory) (l : list ScoredMemory) :
  Forall (fun y => qualityScore y <= qualityScore x)%Z l -> insert_desc x l = x :: l.
Proof.
  destruct l as [|y l]; intros H; simpl; [reflexivity|].
  inversion H as [|? ? Hy _]; subst.
  destruct (Z.ltb (qualityScore x) (qualityScore y)) eqn:E; [|reflexivity].
  apply Z.ltb_lt in E. lia.
Qed.

(** Filtering commutes with inserting into a sorted list: the sort is
    stable. *)
Lemma filter_insert_desc (p : ScoredMemory -> bool) (x : ScoredMemory)
    (l : list ScoredMemory) :
  StronglySorted score_ge l ->
  List.filter p (insert_desc x l) =
  if p x then insert_desc x (List.filter p l) else List.filter p l.
Proof.
  induction l as [|z l IH]; intros Hs.
  - simpl. destruct (p x); reflexivity.
  - apply StronglySorted_inv in Hs as [Hl Hz].
    simpl insert_desc.
    destruct (Z.ltb (qualityScore x) (qualityScore z)) eqn:Hlt.
    + simpl. rewrite (IH Hl).
      destruct (p z), (p x); simpl; rewrite ?Hlt; reflexivity.
    + apply Z.ltb_ge in Hlt.
      change (List.filter p (x :: z :: l))
        with (if p x then x :: List.filter p (z :: l) else List.filter p (z :: l)).
      destruct (p x); [|reflexivity].
      symmetry. apply insert_desc_top.
      apply List.Forall_forall. intros y Hy. apply filter_In in Hy as [Hy _].
      destruct Hy as [<-|Hy]; [lia|].
      rewrite List.Forall_forall in Hz. specialize (Hz y Hy). unfold score_ge in Hz. lia.
Qed.

Lemma sort_desc_filter (p : ScoredMemory -> bool) (l : list ScoredMemory) :
  sort_desc (List.filter p l) = List.filter p (sort_desc l).
Proof.
  induction l as [|x l IH]; simpl; [reflexivity|].
  rewrite (filter_insert_desc p x (sort_desc l) (sort_desc_sorted l)).
  destruct (p x); simpl; rewrite IH; reflexivity.
Qed.

(** In a descending list, the records above a threshold form a prefix. *)
Lemma threshold_prefix (t : Z) (l : list ScoredMemory) :
  StronglySorted score_ge l ->
  exists rest, l = app (List.filter (fun m => Z.leb t (qualityScore m)) l) rest.
Proof.
  induction l as [|z l IH]; intros Hs; simpl.
  - exists []. reflexivity.
  - apply StronglySorted_inv in Hs as [Hl Hz].
    destruct (Z.leb t (qualityScore z)) eqn:Ht.
    + destruct (IH Hl) as [rest Hrest]. exists rest. simpl. rewrite <- Hrest. reflexivity.
    + exists (z :: l).
      assert (Hnil : List.filter (fun m => Z.leb t (qualityScore m)) l = []).
      { apply Z.leb_gt in Ht. clear IH Hl.
        induction l as [|y l IHl]; simpl; [reflexivity|].
        inversion Hz as [|? ? Hy Hz']; subst. unfold score_ge in Hy.
        destruct (Z.leb t (qualityScore y)) eqn:E; [apply Z.leb_le in E; lia|].
        exact (IHl Hz'). }
      rewrite Hnil. reflexivity.
Qed.

Lemma firstn_app_incl {A} (a b : nat) (P R : list A) :
  a <= b -> incl (firstn a P) (firstn b (P ++ R)).
Proof.
  revert a b. induction P as [|x P IH]; intros a b Hab y Hy.
  - destruct a; contradiction.
  - destruct a as [|a]; [contradiction|].
    destruct b as [|b]; [lia|].
    destruct Hy as [<-|Hy]; [left; reflexivity|].
    right. apply (IH a b); [lia | exact Hy].
Qed.

Lemma slice0_prefix_incl {A} (n : Z) (P R : list A) :
  incl (slice0 n P) (slice0 n (P ++ R)).
Proof.
  unfold slice0. destruct (Z.leb 0 n).
  - apply firstn_app_incl. lia.
  - apply firstn_app_incl. rewrite length_app. lia.
Qed.

(** Raising the threshold only filters the threshold-[t1] candidates. *)
Lemma candidates_threshold (config1 config2 : DistillConfig) (l : list ScoredMemory) :
  categories config1 = categories config2 ->
  (minQualityScore config1 <= minQualityScore config2)%Z ->
  List.filter (category_eligible config2)
    (List.filter (fun memory => negb (String.eqb (category memory) "noise"))
       (List.filter (fun memory => Z.leb (minQualityScore config2) (qualityScore memory)) l))
  = List.filter (fun m => Z.leb (minQualityScore config2) (qualityScore m))
      (List.filter (category_eligible config1)
         (List.filter (fun memory => negb (String.eqb (category memory) "noise"))
            (List.filter (fun memory => Z.leb (minQualityScore config1) (qualityScore memory)) l))).
Proof.
  intros Hcat Hle.
  assert (Helig : forall m, category_eligible config2 m = category_eligible config1 m)
    by (intros m; unfold category_eligible; rewrite Hcat; reflexivity).
  induction l as [|x l IH]; simpl; [reflexivity|].
  destruct (Z.leb (minQualityScore config2) (qualityScore x)) eqn:E2.
  - assert (E1 : Z.leb (minQualityScore config1) (qualityScore x) = true)
      by (apply Z.leb_le in E2; apply Z.leb_le; lia).
    rewrite E1. simpl.
    destruct (negb (String.eqb (category x) "noise")); simpl; [|exact IH].
    rewrite Helig. destruct (category_eligible config1 x); simpl; rewrite ?E2, IH; reflexivity.
  - destruct (Z.leb (minQualityScore config1) (qualityScore x)); simpl; [|exact IH].
    destruct (negb (String.eqb (category x) "noise")); simpl; [|exact IH].
    destruct (category_eligible config1 x); simpl; rewrite ?E2; exact IH.
Qed.

(* ------------------------------------------------------------------ *)
(** ** Helper lemmas: persisting *)

Lemma concat_upsert_chunks (fuel : nat) (points : list GoldenPoint) :
  length points <= fuel -> concat (upsert_chunks fuel points) = points.
Proof.
  revert points. induction fuel as [|fuel IH]; intros points Hle; simpl.
  - destruct points; simpl in *; [reflexivity | lia].
  - destruct points as [|p points']; [reflexivity|].
    set (points := p :: points').
    rewrite concat_cons, IH.
    + apply firstn_skipn.
    + rewrite length_skipn. simpl in *. lia.
Qed.

Lemma upsert_points (memories : list ScoredMemory) :
  concat (upsertGoldenMemories memories) = map to_point memories.
Proof.
  unfold upsertGoldenMemories. destruct memories as [|m ms]; [reflexivity|].
  apply concat_upsert_chunks. lia.
Qed.

Lemma scoreMemory_base (memory : AgentMemory) : base (scoreMemory memory) = memory.
Proof.
  pose proof (scoreMemory_fields memory) as H.
  destruct (raw_score_tags (toLowerCase (text memory))). rewrite H. reflexivity.
Qed.

Lemma junk_token_In (t : string) :
  junk_token t = true <-> In (toLowerCase t) ["ok"; "yes"; "no"; "done"; "test"].
Proof.
  unfold junk_token. rewrite existsb_exists. split.
  - intros (x & Hx & He). apply String.eqb_eq in He. subst. exact Hx.
  - intros H. exists (toLowerCase t). split; [exact H | apply String.eqb_refl].
Qed.

Lemma preFilter_bool (memory : AgentMemory) :
  preFilter memory =
  negb (Nat.ltb (String.length (trim (text memory))) 20
        || includes (toLowerCase (trim (text memory))) "subagent direct hook test"
        || includes (toLowerCase (trim (text memory))) "skipping:"
        || includes (toLowerCase (trim (text memory))) "no output"
        || junk_token (trim (text memory))).
Proof.
  unfold preFilter.
  destruct (Nat.ltb _ 20), (includes _ "subagent direct hook test"),
    (includes _ "skipping:"), (includes _ "no output"), (junk_token _); reflexivity.
Qed.

(** The three junk substrings start and end with visible characters, so
    testing them on the trimmed text is the same as on the raw text. *)
Lemma includes_trim_junk (s : string) :
  includes (toLowerCase (trim s)) "subagent direct hook test" =
    includes (toLowerCase s) "subagent direct hook test" /\
  includes (toLowerCase (trim s)) "skipping:" =
    includes (toLowerCase s) "skipping:" /\
  includes (toLowerCase (trim s)) "no output" =
    includes (toLowerCase s) "no output".
Proof.
  split; [|split]; eapply includes_trim;
    (reflexivity || (vm_compute; reflexivity)).
Qed.

(* ------------------------------------------------------------------ *)
(** ** Claims *)

(** C1 (counterexample): a record with the "rule" tag whose final score
    is below 30 gets the category noise, not system_rule. *)
Lemma C1_counterexample :
  let memory := mkAgentMemory "m1" "rule skipping test" "" "assistant" "" "" 0 None in
  In "rule" (tags (scoreMemory memory)) /\
  (qualityScore (scoreMemory memory) < 30)%Z /\
  category (scoreMemory memory) <> "system_rule".
Proof.
  intros memory. split; [|split].
  - apply tags_has_In. vm_compute. reflexivity.
  - vm_compute. reflexivity.
  - intros H. vm_compute in H. discriminate H.
Qed.

(** C1 (amended): for every record whose heuristic tags include "rule",
    the category is system_rule when the final score is at least 30 and
    noise when it is below 30, whatever the originating group. *)
Theorem C1_rule_tag_category (memory : AgentMemory) :
  In "rule" (tags (scoreMemory memory)) ->
  category (scoreMemory memory) =
  (if Z.ltb (qualityScore (scoreMemory memory)) 30 then "noise" else "system_rule").
Proof.
  pose proof (scoreMemory_fields memory) as H.
  destruct (raw_score_tags (toLowerCase (text memory))) as [score tags].
  rewrite H; simpl. intros Hin.
  apply tags_has_In in Hin. rewrite Hin, clamp_lt_30.
  destruct (Z.ltb score 30); reflexivity.
Qed.

Lemma C1_witness :
  let memory :=
    mkAgentMemory "w1" "always follow the position sizing rule" "" "trader" "" "" 0 None in
  In "rule" (tags (scoreMemory memory)) /\
  category (scoreMemory memory) = "system_rule".
Proof.
  intros memory.
  assert (Hin : In "rule" (tags (scoreMemory memory)))
    by (apply tags_has_In; vm_compute; reflexivity).
  split; [exact Hin|].
  rewrite (C1_rule_tag_category memory Hin). vm_compute. reflexivity.
Defined.

(** C2 (counterexample): an entry whose index matches but whose score is
    not a finite number (a missing [score] field gives NaN) is dropped by
    [parseScores], so the record falls back to the heuristic scorer
    instead of getting score 50 and the tags {category, "llm-scored"}; a
    finite score is rounded, 72.4 becomes 72; and a matching entry with
    score 80 does not decide when another element of the array is [null]:
    reading [obj.index] of [null] throws, and the record falls back. *)
Lemma C2_counterexample :
  let memory := mkAgentMemory "m2" "hello world" "" "trader" "" "" 0 None in
  let nan_entry := mkLlmItem (JFin 0) JNaN "market_insight" "r" in
  let frac_entry := mkLlmItem (JFin 0) (JFin (724 # 10)) "market_insight" "r" in
  let good_entry := mkLlmItem (JFin 0) (JFin 80) "market_insight" "r" in
  (exists r,
     scoreSingleBatch (Content (JsonArray [JsonItem nan_entry])) [memory] = [r] /\
     qualityScore r <> 50%Z /\
     scoringMethod r = Rule /\
     tags r <> ["market_insight"; "llm-scored"]) /\
  (exists r,
     scoreSingleBatch (Content (JsonArray [JsonItem frac_entry])) [memory] = [r] /\
     qualityScore r = 72%Z /\
     Qeq_bool (inject_Z (qualityScore r)) (724 # 10) = false) /\
  (exists r,
     scoreSingleBatch (Content (JsonArray [JsonItem good_entry; JsonItemThrows])) [memory] = [r] /\
     qualityScore r <> 80%Z /\
     scoringMethod r = Rule /\
     r = llm_fallback memory).
Proof.
  intros memory nan_entry frac_entry good_entry. split; [|split].
  - eexists. split; [vm_compute; reflexivity|].
    split; [vm_compute; discriminate|].
    split; [reflexivity|].
    vm_compute. discriminate.
  - eexists. split; [vm_compute; reflexivity|].
    split; vm_compute; reflexivity.
  - eexists. split; [vm_compute; reflexivity|].
    split; [vm_compute; discriminate|].
    split; reflexivity.
Qed.

(** C2 (amended): [parseScores] first reads every element of the parsed
    array; when this throws for some element (a [null] element, at
    [obj.index]), the whole chunk falls back, so the record at position
    idx gets the heuristic score with the tag "llm-fallback" appended.
    Otherwise parsing keeps the entries whose index and score are both
    finite numbers.  If one of them has index idx, the first such entry
    decides: the record gets that entry's score rounded to the nearest
    integer and clamped to [0,100], its category when it is in the closed
    set and noise otherwise, the tags exactly [category; "llm-scored"],
    scoring method llm.  If none has index idx (in particular when the
    only matching entries have a non-finite score), the record falls back
    to the heuristic scorer with the tag "llm-fallback" appended. *)
Theorem C2_llm_matched_entry (items : list JsonElem) (batch : list AgentMemory)
    (idx : nat) (memory : AgentMemory) :
  nth_error batch idx = Some memory ->
  (In JsonItemThrows items ->
   nth_error (scoreSingleBatch (Content (JsonArray items)) batch) idx =
   Some (llm_fallback memory)) /\
  (forall its : list LlmItem, items = map JsonItem its ->
   (forall e,
      List.find (index_is idx)
        (List.filter (fun it => isFinite (index it) && isFinite (score it)) its) = Some e ->
      exists r q,
        nth_error (scoreSingleBatch (Content (JsonArray items)) batch) idx = Some r /\
        score e = JFin q /\
        qualityScore r = Z.min 100 (Z.max 0 (math_round q)) /\
        category r = (if allowed_has (item_category e) then item_category e else "noise") /\
        tags r = [category r; "llm-scored"] /\
        scoringMethod r = Llm /\
        base r = memory) /\
   (List.find (index_is idx)
      (List.filter (fun it => isFinite (index it) && isFinite (score it)) its) = None ->
    nth_error (scoreSingleBatch (Content (JsonArray items)) batch) idx =
    Some (llm_fallback memory))).
Proof.
  intros Hnth.
  unfold scoreSingleBatch, scoreSingleBatch_try, parseScores.
  split.
  - intros Hin. destruct (read_items_throws items Hin) as [m ->].
    rewrite nth_error_map, Hnth. reflexivity.
  - intros its ->. rewrite read_items_map.
    rewrite (nth_error_match_scores _ batch 0 idx memory Hnth). simpl Nat.add.
    split.
    + intros e He. rewrite He.
      apply find_some in He as [Hin _].
      apply filter_In in Hin as [_ Hfin]. apply andb_prop in Hfin as [_ Hfin].
      destruct (score e) as [q| | |] eqn:Hs; try discriminate Hfin.
      exists (llm_scored memory e), q.
      unfold llm_scored; simpl. rewrite Hs.
      repeat split; reflexivity.
    + intros He. rewrite He. reflexivity.
Qed.

Lemma C2_witness :
  let memory := mkAgentMemory "w2" "hello world" "" "trader" "" "" 0 None in
  let entry := mkLlmItem (JFin 0) (JFin (724 # 10)) "market_insight" "r" in
  nth_error [memory] 0 = Some memory /\
  [JsonItem entry] = map JsonItem [entry] /\
  List.find (index_is 0)
    (List.filter (fun it => isFinite (index it) && isFinite (score it)) [entry]) = Some entry /\
  (exists r q,
    nth_error (scoreSingleBatch (Content (JsonArray [JsonItem entry])) [memory]) 0 = Some r /\
    score entry = JFin q /\
    qualityScore r = Z.min 100 (Z.max 0 (math_round q)) /\
    category r = (if allowed_has (item_category entry) then item_category entry else "noise") /\
    tags r = [category r; "llm-scored"] /\
    scoringMethod r = Llm /\
    base r = memory) /\
  In JsonItemThrows [JsonItem entry; JsonItemThrows] /\
  nth_error (scoreSingleBatch (Content (JsonArray [JsonItem entry; JsonItemThrows])) [memory]) 0 =
    Some (llm_fallback memory).
Proof.
  intros memory entry.
  assert (Hfind : List.find (index_is 0)
    (List.filter (fun it => isFinite (index it) && isFinite (score it)) [entry]) = Some entry)
    by (vm_compute; reflexivity).
  split; [reflexivity|]. split; [reflexivity|]. split; [exact Hfind|]. split.
  - exact (proj1 (proj2 (C2_llm_matched_entry [JsonItem entry] [memory] 0 memory eq_refl)
                   [entry] eq_refl) entry Hfind).
  - split; [right; left; reflexivity|].
    exact (proj1 (C2_llm_matched_entry [JsonItem entry; JsonItemThrows] [memory] 0 memory eq_refl)
             (or_intror (or_introl eq_refl))).
Defined.

(** C3: with a numeric batch size b, if the response to the k-th chunk is
    a transport failure (fetch rejected, HTTP error status, no content)
    or does not parse to a JSON array (or to one with an element, such
    as [null], that [parseScores] cannot read), then the outputs at positions
    k*b onwards are, in the same order and one per record of the chunk,
    the heuristic scores of the chunk's records with scoring method rule
    and "llm-fallback" appended to their tags; [scoreBatch] still returns
    one output per input. *)
Theorem C3_failed_chunk_falls_back (service : LlmService) (batchSize : option Z)
    (b k : nat) (memories chunk : list AgentMemory) :
  effective_batch_size batchSize = Some b ->
  nth_error (batches b (length memories) memories) k = Some chunk ->
  response_fails (service k chunk) = true ->
  length (scoreBatch service batchSize memories) = length memories /\
  firstn (length chunk) (skipn (k * b) (scoreBatch service batchSize memories)) =
    map llm_fallback chunk /\
  (forall memory, In memory chunk ->
     scoringMethod (llm_fallback memory) = Rule /\
     tags (llm_fallback memory) = app (tags (scoreMemory memory)) ["llm-fallback"] /\
     qualityScore (llm_fallback memory) = qualityScore (scoreMemory memory) /\
     category (llm_fallback memory) = category (scoreMemory memory) /\
     base (llm_fallback memory) = memory).
Proof.
  intros Hb Hk Hfail.
  pose proof (effective_batch_size_pos batchSize b Hb) as Hpos.
  unfold scoreBatch. rewrite Hb.
  split; [|split].
  - apply length_scoreBatch_loop; [exact Hpos | lia].
  - rewrite (scoreBatch_loop_chunk service b _ memories 0 k chunk Hpos Hk).
    apply scoreSingleBatch_fails. exact Hfail.
  - intros memory _. unfold llm_fallback. simpl.
    pose proof (scoreMemory_fields memory) as H.
    destruct (raw_score_tags (toLowerCase (text memory))). rewrite H.
    repeat split; reflexivity.
Qed.

Lemma C3_witness :
  let m1 := mkAgentMemory "a" "first record of the run" "" "trader" "" "" 0 None in
  let m2 := mkAgentMemory "b" "second record of the run" "" "trader" "" "" 0 None in
  let m3 := mkAgentMemory "c" "third record of the run" "" "trader" "" "" 0 None in
  let service : LlmService :=
    fun k _ => if Nat.eqb k 1 then FetchRejected "ECONNRESET" else Content (JsonArray []) in
  effective_batch_size (Some 2%Z) = Some 2 /\
  nth_error (batches 2 (length [m1; m2; m3]) [m1; m2; m3]) 1 = Some [m3] /\
  response_fails (service 1 [m3]) = true /\
  firstn 1 (skipn 2 (scoreBatch service (Some 2%Z) [m1; m2; m3])) = [llm_fallback m3].
Proof.
  intros m1 m2 m3 service.
  split; [reflexivity|]. split; [reflexivity|]. split; [reflexivity|].
  exact (proj1 (proj2 (C3_failed_chunk_falls_back service (Some 2%Z) 2 1
                          [m1; m2; m3] [m3] eq_refl eq_refl eq_refl))).
Defined.

(** C4: a heuristic score below 30 forces the category noise, and no
    record with category noise is ever in the retained set of [distill],
    for every configuration (any threshold, including 0) and either
    scorer. *)
Theorem C4_noise_floor_never_retained :
  (forall memory : AgentMemory,
     (qualityScore (scoreMemory memory) < 30)%Z ->
     category (scoreMemory memory) = "noise") /\
  (forall (env : DistillEnv) (store : MemoryStore) (service : nat -> LlmService)
          (config : DistillConfig) (r : ScoredMemory),
     In r (retained env store service config) -> category r <> "noise").
Proof.
  split.
  - intros memory.
    pose proof (scoreMemory_fields memory) as H.
    destruct (raw_score_tags (toLowerCase (text memory))) as [score tags].
    rewrite H; simpl. intros Hlt.
    apply Z.ltb_lt in Hlt. rewrite clamp_lt_30 in Hlt. rewrite Hlt. reflexivity.
  - intros env store service config r Hr.
    apply retained_from_top in Hr as (k & agent & Hr).
    apply select_top_In in Hr. tauto.
Qed.

Lemma C4_witness :
  let low := mkAgentMemory "w4" "test skipping" "" "trader" "" "" 0 None in
  let good := mkAgentMemory "g4" "big win on the breakout entry, lesson kept for later"
                "" "trader" "" "" 0 None in
  let env := mkDistillEnv false (Some 10%Z) in
  let store : MemoryStore := fun _ => [good; low] in
  let service : nat -> LlmService := fun _ _ _ => NoContent in
  let config := mkDistillConfig ["trader"] 0 100 DEFAULT_CATEGORIES true false false in
  ((qualityScore (scoreMemory low) < 30)%Z /\ category (scoreMemory low) = "noise") /\
  (In (scoreMemory good) (retained env store service config) /\
   category (scoreMemory good) <> "noise").
Proof.
  intros low good env store service config.
  assert (Hlow : (qualityScore (scoreMemory low) < 30)%Z) by (vm_compute; reflexivity).
  assert (Hin : In (scoreMemory good) (retained env store service config))
    by (vm_compute; left; reflexivity).
  split; split.
  - exact Hlow.
  - exact (proj1 C4_noise_floor_never_retained low Hlow).
  - exact Hin.
  - exact (proj2 C4_noise_floor_never_retained env store service config _ Hin).
Defined.

(** C5: every record produced by the heuristic scorer, by one LLM chunk
    (matched, per-record fallback or whole-chunk fallback) or by the whole
    LLM batch scorer has an integer quality score in [0,100] and a
    category in the closed ten-value set. *)
Theorem C5_score_range_closed_category :
  (forall memory : AgentMemory,
     (0 <= qualityScore (scoreMemory memory) <= 100)%Z /\
     In (category (scoreMemory memory)) ALLOWED_CATEGORIES) /\
  (forall (response : LlmResponse) (batch : list AgentMemory) (r : ScoredMemory),
     In r (scoreSingleBatch response batch) ->
     (0 <= qualityScore r <= 100)%Z /\ In (category r) ALLOWED_CATEGORIES) /\
  (forall (service : LlmService) (batchSize : option Z) (memories : list AgentMemory)
          (r : ScoredMemory),
     In r (scoreBatch service batchSize memories) ->
     (0 <= qualityScore r <= 100)%Z /\ In (category r) ALLOWED_CATEGORIES).
Proof.
  split; [|split].
  - intros memory. split.
    + apply scoreMemory_range.
    + apply allowed_has_In, scoreMemory_allowed.
  - intros response batch r Hr.
    apply llm_output_well_formed, (scoreSingleBatch_In response batch r Hr).
  - intros service batchSize memories r Hr.
    apply scoreBatch_In in Hr as (response & batch & Hr).
    apply llm_output_well_formed, (scoreSingleBatch_In response batch r Hr).
Qed.

Lemma C5_witness :
  let memory := mkAgentMemory "w5" "hello world" "" "trader" "" "" 0 None in
  let entry := mkLlmItem (JFin 0) (JFin 250) "not_a_category" "r" in
  let r := llm_scored memory entry in
  (In r (scoreSingleBatch (Content (JsonArray [JsonItem entry])) [memory]) /\
   (0 <= qualityScore r <= 100)%Z /\ In (category r) ALLOWED_CATEGORIES) /\
  (In r (scoreBatch (fun _ _ => Content (JsonArray [JsonItem entry])) (Some 10%Z) [memory]) /\
   (0 <= qualityScore r <= 100)%Z /\ In (category r) ALLOWED_CATEGORIES).
Proof.
  intros memory entry r.
  assert (H1 : In r (scoreSingleBatch (Content (JsonArray [JsonItem entry])) [memory]))
    by (vm_compute; left; reflexivity).
  assert (H2 : In r (scoreBatch (fun _ _ => Content (JsonArray [JsonItem entry])) (Some 10%Z) [memory]))
    by (vm_compute; left; reflexivity).
  split; split.
  - exact H1.
  - exact (proj1 (proj2 C5_score_range_closed_category) _ _ r H1).
  - exact H2.
  - exact (proj2 (proj2 C5_score_range_closed_category) _ _ _ r H2).
Defined.

(** C6: for a fixed scored sequence and a fixed configuration apart from
    the threshold, the [top] list computed with threshold t2 is contained
    in the one computed with threshold t1 whenever t1 <= t2. *)
Theorem C6_threshold_monotone (config1 config2 : DistillConfig)
    (scored : list ScoredMemory) :
  categories config1 = categories config2 ->
  maxOutputPerAgent config1 = maxOutputPerAgent config2 ->
  (minQualityScore config1 <= minQualityScore config2)%Z ->
  incl (select_top config2 scored) (select_top config1 scored).
Proof.
  intros Hcat Hmax Hle. unfold select_top.
  rewrite (candidates_threshold config1 config2 scored Hcat Hle).
  rewrite sort_desc_filter, Hmax.
  set (sorted := sort_desc _).
  destruct (threshold_prefix (minQualityScore config2) sorted (sort_desc_sorted _))
    as [rest Hrest].
  rewrite Hrest at 2.
  apply slice0_prefix_incl.
Qed.

Lemma C6_witness :
  let mk (n : string) (q : Z) :=
    mkScoredMemory (mkAgentMemory n "" "" "trader" "" "" 0 None) q "market_insight" []
      None Rule None in
  let scored := [mk "a" 65%Z; mk "b" 90%Z; mk "c" 75%Z; mk "d" 40%Z] in
  let config1 := mkDistillConfig ["trader"] 50%Z 2%Z DEFAULT_CATEGORIES true false false in
  let config2 := mkDistillConfig ["trader"] 70%Z 2%Z DEFAULT_CATEGORIES true false false in
  categories config1 = categories config2 /\
  maxOutputPerAgent config1 = maxOutputPerAgent config2 /\
  (minQualityScore config1 <= minQualityScore config2)%Z /\
  incl (select_top config2 scored) (select_top config1 scored).
Proof.
  intros mk scored config1 config2.
  split; [reflexivity|]. split; [reflexivity|]. split; [simpl; lia|].
  apply C6_threshold_monotone; [reflexivity | reflexivity | simpl; lia].
Defined.

(** C7: [preFilter] rejects a record exactly when its trimmed text is
    shorter than 20 characters, or the lower-cased text contains
    "subagent direct hook test", "skipping:" or "no output", or the
    lower-cased trimmed text is one of "ok", "yes", "no", "done", "test".
    In particular a 19-character text and the text "test" in any case are
    rejected. *)
Theorem C7_preFilter_rejects_exactly :
  (forall memory : AgentMemory,
     preFilter memory = false <->
     String.length (trim (text memory)) < 20 \/
     includes (toLowerCase (text memory)) "subagent direct hook test" = true \/
     includes (toLowerCase (text memory)) "skipping:" = true \/
     includes (toLowerCase (text memory)) "no output" = true \/
     In (toLowerCase (trim (text memory))) ["ok"; "yes"; "no"; "done"; "test"]) /\
  (forall memory : AgentMemory,
     text memory = "aaaaaaaaaaaaaaaaaaa" -> preFilter memory = false) /\
  (forall memory : AgentMemory,
     toLowerCase (text memory) = "test" -> preFilter memory = false).
Proof.
  assert (Hiff : forall memory : AgentMemory,
     preFilter memory = false <->
     String.length (trim (text memory)) < 20 \/
     includes (toLowerCase (text memory)) "subagent direct hook test" = true \/
     includes (toLowerCase (text memory)) "skipping:" = true \/
     includes (toLowerCase (text memory)) "no output" = true \/
     In (toLowerCase (trim (text memory))) ["ok"; "yes"; "no"; "done"; "test"]).
  { intros memory.
    destruct (includes_trim_junk (text memory)) as (E1 & E2 & E3).
    rewrite preFilter_bool, E1, E2, E3, negb_false_iff, !orb_true_iff,
      Nat.ltb_lt, junk_token_In.
    tauto. }
  split; [exact Hiff|]. split.
  - intros memory Ht. apply Hiff. left. rewrite Ht. vm_compute. lia.
  - intros memory Ht. apply Hiff. left.
    assert (Hlen : String.length (text memory) = 4)
      by (rewrite <- length_toLowerCase, Ht; reflexivity).
    pose proof (length_trim (text memory)) as Htrim.
    lia.
Qed.

Lemma C7_witness :
  let m19 := mkAgentMemory "w7" "aaaaaaaaaaaaaaaaaaa" "" "trader" "" "" 0 None in
  let mtest := mkAgentMemory "t7" "TeSt" "" "trader" "" "" 0 None in
  let mjunk := mkAgentMemory "j7" "  Result: NO OUTPUT from the scheduled task  " "" "trader" "" "" 0 None in
  (text m19 = "aaaaaaaaaaaaaaaaaaa" /\ preFilter m19 = false) /\
  (toLowerCase (text mtest) = "test" /\ preFilter mtest = false) /\
  (includes (toLowerCase (text mjunk)) "no output" = true /\ preFilter mjunk = false).
Proof.
  intros m19 mtest mjunk.
  destruct C7_preFilter_rejects_exactly as (Hiff & H19 & Htest).
  split; [|split].
  - split; [reflexivity|]. apply H19. reflexivity.
  - split; [reflexivity|]. apply Htest. reflexivity.
  - assert (Hj : includes (toLowerCase (text mjunk)) "no output" = true)
      by (vm_compute; reflexivity).
    split; [exact Hj|]. apply Hiff. right; right; right; left. exact Hj.
Defined.

(** C8: a "trader" record whose lower-cased text contains "win", whose
    text has length 250, and which matches no other keyword group and no
    negative-delta condition, scores 50 + 15 + 5 = 70, gets the category
    trading_win_pattern and the tag "win". *)
Theorem C8_trader_win_250 (memory : AgentMemory) :
  source_agent memory = "trader" ->
  includes (toLowerCase (text memory)) "win" = true ->
  String.length (text memory) = 250 ->
  any_includes (toLowerCase (text memory)) ["pattern"; "mẫu"] = false ->
  any_includes (toLowerCase (text memory)) ["fix"; "resolved"; "đã sửa"] = false ->
  any_includes (toLowerCase (text memory)) ["rule"; "quy tắc"; "luật"] = false ->
  any_includes (toLowerCase (text memory)) ["rsi"; "macd"; "sma"] = false ->
  any_includes (toLowerCase (text memory)) ["architecture"; "design"] = false ->
  any_includes (toLowerCase (text memory)) ["lesson"; "bài học"; "kinh nghiệm"] = false ->
  (includes (toLowerCase (text memory)) "error"
   && includes (toLowerCase (text memory)) "500") = false ->
  (includes (toLowerCase (text memory)) "skipping"
   || includes (toLowerCase (text memory)) "no output") = false ->
  (includes (toLowerCase (text memory)) "test"
   && negb (includes (toLowerCase (text memory)) "backtest")) = false ->
  qualityScore (scoreMemory memory) = 70%Z /\
  category (scoreMemory memory) = "trading_win_pattern" /\
  In "win" (tags (scoreMemory memory)).
Proof.
  intros Hagent Hwin Hlen Hpat Hfix Hrule Htech Harch Hles Herr Hskip Htest.
  assert (Hraw : raw_score_tags (toLowerCase (text memory)) = (70%Z, ["win"])).
  { unfold raw_score_tags, keyword_step.
    assert (Hw : any_includes (toLowerCase (text memory)) ["win"; "thắng"; "lợi nhuận"] = true)
      by (unfold any_includes; simpl; rewrite Hwin; reflexivity).
    rewrite Hw, Hpat, Hfix, Hrule, Htech, Harch, Hles.
    rewrite length_toLowerCase, Hlen, Herr, Hskip, Htest.
    reflexivity. }
  pose proof (scoreMemory_fields memory) as H.
  rewrite Hraw in H. rewrite H. simpl.
  rewrite Hagent. simpl.
  split; [reflexivity|]. split; [reflexivity|]. left; reflexivity.
Qed.

Lemma C8_witness :
  let memory := mkAgentMemory "w8"
    ("big win today: entries were placed early and held through the afternoon "
     ++ "session while volume stayed calm; the team kept position sizes low and "
     ++ "exits were planned in advance so nothing was rushed or forced and the "
     ++ "overall result was steady progress...")
    "" "trader" "" "" 0 None in
  String.length (text memory) = 250 /\
  qualityScore (scoreMemory memory) = 70%Z /\
  category (scoreMemory memory) = "trading_win_pattern" /\
  In "win" (tags (scoreMemory memory)).
Proof.
  intros memory. split; [vm_compute; reflexivity|].
  apply C8_trader_win_250; vm_compute; reflexivity.
Defined.

(** C9 (counterexample): with LLM scoring enabled, a record of the group
    "devops" (none of the four known groups, no rule keyword) is noise
    for the heuristic scorer but is retained by [distill] when the LLM
    scores it 90 as market_insight. *)
Lemma C9_counterexample :
  let memory := mkAgentMemory "m9" "deploy pipeline finished on the staging cluster"
                  "" "devops" "" "" 0 None in
  let entry := mkLlmItem (JFin 0) (JFin 90) "market_insight" "useful" in
  let env := mkDistillEnv true (Some 10%Z) in
  let store : MemoryStore := fun _ => [memory] in
  let service : nat -> LlmService := fun _ _ _ => Content (JsonArray [JsonItem entry]) in
  let config := mkDistillConfig ["devops"] 60 100 DEFAULT_CATEGORIES true false false in
  ~ In (source_agent memory) KNOWN_GROUPS /\
  any_includes (toLowerCase (text memory)) ["rule"; "quy tắc"; "luật"] = false /\
  category (scoreMemory memory) = "noise" /\
  exists r, In r (retained env store service config) /\ base r = memory.
Proof.
  intros memory entry env store service config.
  split; [vm_compute; intuition discriminate|].
  split; [vm_compute; reflexivity|].
  split; [vm_compute; reflexivity|].
  exists (llm_scored memory entry). split; [vm_compute; left; reflexivity | reflexivity].
Qed.

(** C9 (amended): a record whose group is none of "trader", "fullstack",
    "scrum", "assistant" and whose text matches no rule keyword gets the
    heuristic category noise whatever its score; so, when the run scores
    with the heuristic scorer (LLM scoring disabled or forced off), every
    retained record comes from a known group or has a rule keyword. *)
Theorem C9_unknown_group_rule_mode :
  (forall memory : AgentMemory,
     ~ In (source_agent memory) KNOWN_GROUPS ->
     any_includes (toLowerCase (text memory)) ["rule"; "quy tắc"; "luật"] = false ->
     category (scoreMemory memory) = "noise") /\
  (forall (env : DistillEnv) (store : MemoryStore) (service : nat -> LlmService)
          (config : DistillConfig) (r : ScoredMemory),
     (llm_scoring_enabled env && negb (forceRuleOnly config)) = false ->
     In r (retained env store service config) ->
     In (source_agent (base r)) KNOWN_GROUPS \/
     any_includes (toLowerCase (text (base r))) ["rule"; "quy tắc"; "luật"] = true).
Proof.
  assert (Hnoise : forall memory : AgentMemory,
     ~ In (source_agent memory) KNOWN_GROUPS ->
     any_includes (toLowerCase (text memory)) ["rule"; "quy tắc"; "luật"] = false ->
     category (scoreMemory memory) = "noise").
  { intros memory Hgroup Hrule.
    pose proof (scoreMemory_fields memory) as H.
    assert (Hnotag : forall score tags,
               raw_score_tags (toLowerCase (text memory)) = (score, tags) ->
               tags_has tags "rule" = false).
    { intros score tags Hraw. unfold raw_score_tags, keyword_step in Hraw.
      rewrite Hrule in Hraw.
      destruct (any_includes _ ["win"; "thắng"; "lợi nhuận"]),
        (any_includes _ ["pattern"; "mẫu"]),
        (any_includes _ ["fix"; "resolved"; "đã sửa"]),
        (any_includes _ ["rsi"; "macd"; "sma"]),
        (any_includes _ ["architecture"; "design"]),
        (any_includes _ ["lesson"; "bài học"; "kinh nghiệm"]);
        injection Hraw as _ <-; reflexivity. }
    destruct (raw_score_tags (toLowerCase (text memory))) as [score tags] eqn:Hraw.
    rewrite H; simpl. rewrite (Hnotag score tags eq_refl).
    unfold group_category.
    destruct (String.eqb (source_agent memory) "trader") eqn:E1;
      [apply String.eqb_eq in E1; exfalso; apply Hgroup; rewrite E1; simpl; tauto|].
    destruct (String.eqb (source_agent memory) "fullstack") eqn:E2;
      [apply String.eqb_eq in E2; exfalso; apply Hgroup; rewrite E2; simpl; tauto|].
    destruct (String.eqb (source_agent memory) "scrum") eqn:E3;
      [apply String.eqb_eq in E3; exfalso; apply Hgroup; rewrite E3; simpl; tauto|].
    destruct (String.eqb (source_agent memory) "assistant") eqn:E4;
      [apply String.eqb_eq in E4; exfalso; apply Hgroup; rewrite E4; simpl; tauto|].
    destruct (Z.ltb score 30); reflexivity. }
  split; [exact Hnoise|].
  intros env store service config r Hmode Hr.
  apply retained_from_top in Hr as (k & agent & Hr).
  apply select_top_In in Hr as (Hr & _ & Hcat & _).
  unfold score_filtered in Hr. rewrite Hmode in Hr.
  apply in_map_iff in Hr as (memory & <- & _).
  rewrite scoreMemory_base.
  destruct (in_dec string_dec (source_agent memory) KNOWN_GROUPS) as [Hin|Hout];
    [left; exact Hin|].
  destruct (any_includes (toLowerCase (text memory)) ["rule"; "quy tắc"; "luật"]) eqn:Hrule;
    [right; reflexivity|].
  exfalso. exact (Hcat (Hnoise memory Hout Hrule)).
Qed.

Lemma C9_witness :
  let memory := mkAgentMemory "w9" "deploy pipeline finished on the staging cluster"
                  "" "devops" "" "" 0 None in
  let good := mkAgentMemory "g9" "always follow the position sizing rule"
                "" "ops" "" "" 0 None in
  let env := mkDistillEnv false (Some 10%Z) in
  let store : MemoryStore := fun _ => [memory; good] in
  let service : nat -> LlmService := fun _ _ _ => NoContent in
  let config := mkDistillConfig ["ops"] 0 100 DEFAULT_CATEGORIES true false false in
  category (scoreMemory memory) = "noise" /\
  (In (scoreMemory good) (retained env store service config) /\
   (In (source_agent (base (scoreMemory good))) KNOWN_GROUPS \/
    any_includes (toLowerCase (text (base (scoreMemory good)))) ["rule"; "quy tắc"; "luật"]
    = true)).
Proof.
  intros memory good env store service config.
  assert (Hin : In (scoreMemory good) (retained env store service config))
    by (vm_compute; left; reflexivity).
  split.
  - apply (proj1 C9_unknown_group_rule_mode).
    + vm_compute. intuition discriminate.
    + vm_compute. reflexivity.
  - split; [exact Hin|].
    exact (proj2 C9_unknown_group_rule_mode env store service config _ eq_refl Hin).
Defined.

(** C10: the point written for a retained record without an embedding
    carries a vector of 1024 zeros, and upserting an empty set issues no
    [upsert] call. *)
Theorem C10_zero_vector_and_empty_upsert :
  upsertGoldenMemories [] = [] /\
  (forall (memories : list ScoredMemory) (memory : ScoredMemory),
     In memory memories -> vector (base memory) = None ->
     exists chunk point,
       In chunk (upsertGoldenMemories memories) /\ In point chunk /\
       point_id point = id (base memory) /\ point_payload point = memory /\
       point_vector point = repeat (JFin 0) 1024).
Proof.
  split; [reflexivity|].
  intros memories memory Hin Hvec.
  assert (Hp : In (to_point memory) (concat (upsertGoldenMemories memories)))
    by (rewrite upsert_points; apply in_map; exact Hin).
  apply in_concat in Hp as (chunk & Hchunk & Hp).
  exists chunk, (to_point memory).
  split; [exact Hchunk|]. split; [exact Hp|].
  unfold to_point; simpl. rewrite Hvec.
  repeat split; reflexivity.
Qed.

Lemma C10_witness :
  let memory :=
    mkScoredMemory (mkAgentMemory "w10" "text" "" "trader" "" "" 0 None) 80
      "market_insight" [] None Rule None in
  upsertGoldenMemories [] = [] /\
  exists chunk point,
    In chunk (upsertGoldenMemories [memory]) /\ In point chunk /\
    point_id point = "w10" /\ point_payload point = memory /\
    point_vector point = repeat (JFin 0) 1024.
Proof.
  intros memory.
  split; [exact (proj1 C10_zero_vector_and_empty_upsert)|].
  exact (proj2 C10_zero_vector_and_empty_upsert [memory] memory
           (or_introl eq_refl) eq_refl).
Defined.

(* ================================================================== *)
(** * Further properties of the code *)

(* ------------------------------------------------------------------ *)
Lemma toLowerCase_trim_start (s : string) :
  toLowerCase (trim_start s) = trim_start (toLowerCase s).
Proof.
  induction s as [|c s IH]; simpl; [reflexivity|].
  rewrite is_ws_lower_char. destruct (is_ws c); [exact IH | reflexivity].
Qed.

Lemma toLowerCase_trim (s : string) : toLowerCase (trim s) = trim (toLowerCase s).
Proof.
  unfold trim. rewrite toLowerCase_rev, toLowerCase_trim_start, toLowerCase_rev,
    toLowerCase_trim_start. reflexivity.
Qed.

Lemma toLowerCase_idem (s : string) : toLowerCase (toLowerCase s) = toLowerCase s.
Proof.
  induction s as [|c s IH]; simpl; [reflexivity|]. rewrite IH.
  f_equal. destruct c as [b0 b1 b2 b3 b4 b5 b6 b7].
  destruct b0, b1, b2, b3, b4, b5, b6, b7; reflexivity.
Qed.

(** X1: on the rule-based path letter case does not matter for ASCII
    texts: two records with the same agent whose texts are ASCII and agree
    after lower-casing get the same pre-filter verdict, score, category
    and tags.  (Outside ASCII, [toLowerCase] can change the length of a
    string, e.g. U+0130 becomes two code units.) *)
Theorem rule_path_case_insensitive (m1 m2 : AgentMemory) :
  forallb (fun c => Nat.ltb (nat_of_ascii c) 128) (list_ascii_of_string (text m1)) = true ->
  forallb (fun c => Nat.ltb (nat_of_ascii c) 128) (list_ascii_of_string (text m2)) = true ->
  toLowerCase (text m1) = toLowerCase (text m2) ->
  source_agent m1 = source_agent m2 ->
  preFilter m1 = preFilter m2 /\
  qualityScore (scoreMemory m1) = qualityScore (scoreMemory m2) /\
  category (scoreMemory m1) = category (scoreMemory m2) /\
  tags (scoreMemory m1) = tags (scoreMemory m2).
Proof.
  intros _ _ Ht Ha. split.
  - rewrite !preFilter_bool.
    assert (Hl : forall m, String.length (trim (text m)) =
                           String.length (trim (toLowerCase (text m))))
      by (intros m; rewrite <- toLowerCase_trim, length_toLowerCase; reflexivity).
    assert (Hj : forall m, junk_token (trim (text m)) =
                           existsb (String.eqb (trim (toLowerCase (text m))))
                             ["ok"; "yes"; "no"; "done"; "test"])
      by (intros m; unfold junk_token; rewrite toLowerCase_trim; reflexivity).
    rewrite !Hl, !Hj, !toLowerCase_trim, Ht. reflexivity.
  - unfold scoreMemory. rewrite Ht, Ha.
    destruct (raw_score_tags (toLowerCase (text m2))). auto.
Qed.

Lemma rule_path_case_insensitive_witness :
  let m1 := mkAgentMemory "a" "Fixed the RSI Rule after a LOSS streak" "" "trader" "" "" 0 None in
  let m2 := mkAgentMemory "b" "fixed the rsi rule after a loss streak" "" "trader" "" "" 0 None in
  (forallb (fun c => Nat.ltb (nat_of_ascii c) 128) (list_ascii_of_string (text m1)) = true /\
   forallb (fun c => Nat.ltb (nat_of_ascii c) 128) (list_ascii_of_string (text m2)) = true /\
   toLowerCase (text m1) = toLowerCase (text m2) /\ source_agent m1 = source_agent m2) /\
  preFilter m1 = preFilter m2 /\
  qualityScore (scoreMemory m1) = qualityScore (scoreMemory m2) /\
  category (scoreMemory m1) = category (scoreMemory m2) /\
  tags (scoreMemory m1) = tags (scoreMemory m2).
Proof.
  intros m1 m2.
  split; [repeat split; reflexivity|].
  apply rule_path_case_insensitive; reflexivity.
Defined.

(** X2: the rule-based scorer emits each tag at most once, and only tags
    from its fixed vocabulary. *)
Theorem scoreMemory_tags_distinct (memory : AgentMemory) :
  List.NoDup (tags (scoreMemory memory)) /\
  incl (tags (scoreMemory memory))
    ["win"; "pattern"; "fix"; "rule"; "technical"; "architecture"; "lesson"].
Proof.
  pose proof (scoreMemory_fields memory) as H.
  destruct (raw_score_tags (toLowerCase (text memory))) as [score tags] eqn:E.
  rewrite H. simpl. clear H.
  revert E. unfold raw_score_tags, keyword_step.
  set (t := toLowerCase (text memory)).
  destruct (any_includes t ["win"; "thắng"; "lợi nhuận"]),
    (any_includes t ["pattern"; "mẫu"]),
    (any_includes t ["fix"; "resolved"; "đã sửa"]),
    (any_includes t ["rule"; "quy tắc"; "luật"]),
    (any_includes t ["rsi"; "macd"; "sma"]),
    (any_includes t ["architecture"; "design"]),
    (any_includes t ["lesson"; "bài học"; "kinh nghiệm"]);
    simpl; intros E; injection E as _ <-;
    (split; [repeat (apply List.NoDup_cons; [simpl; intuition discriminate|]); apply List.NoDup_nil
            | intros x Hx; simpl in *; intuition]).
Qed.

Lemma Qfloor_unique (x : Q) (z : Z) :
  (inject_Z z <= x)%Q -> (x < inject_Z (z + 1))%Q -> Qfloor x = z.
Proof.
  intros H1 H2.
  pose proof (Qfloor_le x) as F1. pose proof (Qlt_floor x) as F2.
  assert (A : (z <= Qfloor x)%Z).
  { rewrite <- (Qfloor_Z z). apply Qfloor_resp_le. exact H1. }
  assert (B : (Qfloor x < z + 1)%Z).
  { rewrite Zlt_Qlt. eapply Qle_lt_trans; [exact F1 | exact H2]. }
  lia.
Qed.

(** X3: a finite score is rounded to the nearest integer (halves upwards)
    and then clamped into [0, 100]. *)
Theorem clampScore_nearest (q : Q) (z : Z) :
  (inject_Z z - (1 # 2) <= q)%Q -> (q < inject_Z z + (1 # 2))%Q ->
  clampScore (JFin q) = Z.min 100 (Z.max 0 z).
Proof.
  intros H1 H2. simpl. unfold math_round.
  rewrite (Qfloor_unique (q + (1 # 2)) z); [reflexivity| |].
  - apply (Qplus_le_l _ _ (- (1 # 2))).
    setoid_replace (q + (1 # 2) + - (1 # 2))%Q with q using relation Qeq by ring.
    setoid_replace (inject_Z z + - (1 # 2))%Q with (inject_Z z - (1 # 2))%Q using relation Qeq by ring.
    exact H1.
  - rewrite inject_Z_plus.
    apply (Qplus_lt_l _ _ (- (1 # 2))).
    setoid_replace (q + (1 # 2) + - (1 # 2))%Q with q using relation Qeq by ring.
    setoid_replace (inject_Z z + inject_Z 1 + - (1 # 2))%Q with (inject_Z z + (1 # 2))%Q
      using relation Qeq by (unfold inject_Z; ring).
    exact H2.
Qed.

Lemma clampScore_nearest_witness :
  ((inject_Z 50 - (1 # 2) <= (99 # 2))%Q /\ ((99 # 2) < inject_Z 50 + (1 # 2))%Q /\
   clampScore (JFin (99 # 2)) = 50%Z) /\
  ((inject_Z 250 - (1 # 2) <= (2497 # 10))%Q /\ ((2497 # 10) < inject_Z 250 + (1 # 2))%Q /\
   clampScore (JFin (2497 # 10)) = 100%Z).
Proof.
  split; (split; [vm_compute; discriminate|]); (split; [vm_compute; reflexivity|]).
  - apply (clampScore_nearest (99 # 2) 50); vm_compute; [discriminate|reflexivity].
  - apply (clampScore_nearest (2497 # 10) 250); vm_compute; [discriminate|reflexivity].
Defined.


(* ------------------------------------------------------------------ *)
Lemma find_app_skip {A} (p : A -> bool) (l1 l2 l3 : list A) :
  (forall x, In x l2 -> p x = false) ->
  List.find p (app l1 (app l2 l3)) = List.find p (app l1 l3).
Proof.
  intros H. induction l1 as [|x l1 IH]; simpl.
  - induction l2 as [|y l2 IH2]; simpl; [reflexivity|].
    rewrite (H y (or_introl eq_refl)). apply IH2. intros x Hx. apply H. right. exact Hx.
  - rewrite IH. reflexivity.
Qed.

Lemma match_scores_ext (s1 s2 : list LlmItem) (k : nat) (batch : list AgentMemory) :
  (forall idx, k <= idx < k + length batch ->
     List.find (index_is idx) s1 = List.find (index_is idx) s2) ->
  match_scores s1 k batch = match_scores s2 k batch.
Proof.
  revert k. induction batch as [|m batch IH]; intros k H; simpl; [reflexivity|].
  simpl in H. rewrite (H k) by lia. f_equal. apply IH. intros idx Hi. apply H. lia.
Qed.

Lemma read_items_app (a b : list JsonElem) :
  read_items (app a b) =
  match read_items a with
  | Throw m => Throw m
  | Return l1 =>
      match read_items b with
      | Throw m => Throw m
      | Return l2 => Return (app l1 l2)
      end
  end.
Proof.
  induction a as [|e a IH]; simpl.
  - destruct (read_items b); reflexivity.
  - destruct (read_item e) as [it|m]; [|reflexivity].
    rewrite IH. destruct (read_items a) as [l1|m]; [|reflexivity].
    destruct (read_items b); reflexivity.
Qed.

(** X7: readable entries of the model reply whose index names no memory
    of the batch have no effect on the scored batch, wherever they sit in
    the array. *)
Theorem scoreSingleBatch_ignores_foreign_entries
    (items1 items2 : list JsonElem) (extra : list LlmItem) (batch : list AgentMemory) :
  (forall e idx, In e extra -> idx < length batch -> index_is idx e = false) ->
  scoreSingleBatch (Content (JsonArray (app items1 (app (map JsonItem extra) items2)))) batch =
  scoreSingleBatch (Content (JsonArray (app items1 items2))) batch.
Proof.
  intros H. unfold scoreSingleBatch, scoreSingleBatch_try, parseScores.
  rewrite !read_items_app, read_items_map.
  destruct (read_items items1) as [l1|m]; [|reflexivity].
  destruct (read_items items2) as [l2|m]; [|reflexivity].
  rewrite !List.filter_app. apply match_scores_ext.
  intros idx Hi. apply find_app_skip.
  intros x Hx. apply filter_In in Hx as [Hx _]. apply H; [exact Hx | lia].
Qed.

Lemma scoreSingleBatch_ignores_foreign_entries_witness :
  let memory := mkAgentMemory "w" "some fix for the rsi rule" "" "trader" "" "" 0 None in
  let good := mkLlmItem (JFin 0) (JFin 80) "market_insight" "ok" in
  let stray := [mkLlmItem (JFin 1) (JFin 10) "noise" "out of range";
                mkLlmItem (JFin (1 # 2)) (JFin 10) "noise" "fractional";
                mkLlmItem (JFin (-1)) (JFin 10) "noise" "negative"] in
  (forall e idx, In e stray -> idx < length [memory] -> index_is idx e = false) /\
  scoreSingleBatch (Content (JsonArray (app [] (app (map JsonItem stray) [JsonItem good])))) [memory] =
  scoreSingleBatch (Content (JsonArray (app [] [JsonItem good]))) [memory].
Proof.
  intros memory good stray.
  assert (H : forall e idx, In e stray -> idx < length [memory] -> index_is idx e = false).
  { intros e idx He Hidx. simpl in Hidx. assert (idx = 0) as -> by lia.
    destruct He as [<-|[<-|[<-|[]]]]; reflexivity. }
  split; [exact H|].
  apply scoreSingleBatch_ignores_foreign_entries. exact H.
Defined.

Lemma base_llm_fallback (memory : AgentMemory) : base (llm_fallback memory) = memory.
Proof. unfold llm_fallback. simpl. apply scoreMemory_base. Qed.

Lemma map_base_match_scores (scores : list LlmItem) (k : nat) (batch : list AgentMemory) :
  map base (match_scores scores k batch) = batch.
Proof.
  revert k. induction batch as [|m batch IH]; intros k; simpl; [reflexivity|].
  rewrite IH. f_equal.
  destruct (List.find (index_is k) scores); [reflexivity | apply base_llm_fallback].
Qed.

Lemma map_base_scoreSingleBatch (response : LlmResponse) (batch : list AgentMemory) :
  map base (scoreSingleBatch response batch) = batch.
Proof.
  unfold scoreSingleBatch, scoreSingleBatch_try.
  assert (Hf : map base (map llm_fallback batch) = batch).
  { induction batch as [|m batch IH]; cbn [map]; [reflexivity|].
    rewrite base_llm_fallback, IH. reflexivity. }
  destruct response as [m|s| |parsed]; try exact Hf.
  destruct (parseScores parsed); [apply map_base_match_scores | exact Hf].
Qed.

Lemma map_base_scoreBatch_loop (service : LlmService) (b fuel k : nat)
    (rest : list AgentMemory) :
  1 <= b -> length rest <= fuel ->
  map base (scoreBatch_loop service b fuel k rest) = rest.
Proof.
  intros Hb. revert k rest.
  induction fuel as [|fuel IH]; intros k rest Hle; simpl.
  - destruct rest; simpl in *; [reflexivity | lia].
  - destruct rest as [|m rest']; [reflexivity|].
    rewrite map_app, map_base_scoreSingleBatch, IH.
    + apply firstn_skipn.
    + rewrite length_skipn. simpl in *. lia.
Qed.

Lemma map_base_scoreBatch (service : LlmService) (batchSize : Z)
    (memories : list AgentMemory) :
  map base (scoreBatch service (Some batchSize) memories) = memories.
Proof.
  unfold scoreBatch. simpl. apply map_base_scoreBatch_loop; lia.
Qed.

(** X8: with a numeric batch size, [scoreBatch] returns one scored record
    per input memory, in input order, whatever the model replies. *)
Theorem scoreBatch_keeps_records (service : LlmService) (batchSize : Z)
    (memories : list AgentMemory) :
  map base (scoreBatch service (Some batchSize) memories) = memories.
Proof. apply map_base_scoreBatch. Qed.

Lemma scoreBatch_None (service : LlmService) (memories : list AgentMemory) :
  scoreBatch service None memories = [].
Proof.
  unfold scoreBatch. simpl. destruct memories; [reflexivity|].
  apply length_zero_iff_nil. apply length_scoreSingleBatch.
Qed.

Lemma length_scoreBatch_le (service : LlmService) (batchSize : option Z)
    (memories : list AgentMemory) :
  length (scoreBatch service batchSize memories) <= length memories.
Proof.
  destruct batchSize as [b|].
  - rewrite <- (map_base_scoreBatch service b memories) at 2.
    rewrite length_map. lia.
  - rewrite scoreBatch_None. simpl. lia.
Qed.

Lemma scoreBatch_base_In (service : LlmService) (batchSize : option Z)
    (memories : list AgentMemory) (r : ScoredMemory) :
  In r (scoreBatch service batchSize memories) -> In (base r) memories.
Proof.
  destruct batchSize as [b|].
  - intros H. rewrite <- (map_base_scoreBatch service b memories).
    apply in_map. exact H.
  - rewrite scoreBatch_None. intros [].
Qed.


(* ------------------------------------------------------------------ *)
(** ** Selection *)

Lemma filter_filter3 {A} (f g h : A -> bool) (l : list A) :
  List.filter f (List.filter g (List.filter h l)) =
  List.filter (fun x => h x && g x && f x) l.
Proof.
  induction l as [|x l IH]; simpl; [reflexivity|].
  destruct (h x); simpl; [|exact IH].
  destruct (g x); simpl; [|exact IH].
  destruct (f x); simpl; rewrite IH; reflexivity.
Qed.

Lemma length_insert_desc (x : ScoredMemory) (l : list ScoredMemory) :
  length (insert_desc x l) = S (length l).
Proof.
  induction l as [|y l IH]; simpl; [reflexivity|].
  destruct (Z.ltb (qualityScore x) (qualityScore y)); simpl; rewrite ?IH; reflexivity.
Qed.

Lemma length_sort_desc (l : list ScoredMemory) : length (sort_desc l) = length l.
Proof.
  induction l as [|x l IH]; simpl; [reflexivity|]. rewrite length_insert_desc, IH. reflexivity.
Qed.

Lemma length_slice0 {A} (n : Z) (l : list A) :
  length (slice0 n l) =
  Z.to_nat (if Z.leb 0 n then Z.min n (Z.of_nat (length l))
            else Z.max 0 (Z.of_nat (length l) + n)).
Proof.
  unfold slice0. destruct (Z.leb 0 n) eqn:E.
  - apply Z.leb_le in E. rewrite length_firstn. lia.
  - rewrite length_firstn. lia.
Qed.

Lemma select_top_unfold (config : DistillConfig) (scored : list ScoredMemory) :
  select_top config scored =
  slice0 (maxOutputPerAgent config)
    (sort_desc (List.filter (fun m => Z.leb (minQualityScore config) (qualityScore m)
                                      && negb (String.eqb (category m) "noise")
                                      && category_eligible config m) scored)).
Proof. unfold select_top. rewrite filter_filter3. reflexivity. Qed.

(** X9: the number of records selected for an agent is the count of eligible
    records, cut by [maxOutputPerAgent] with the semantics of
    [Array.prototype.slice(0, n)]. *)
Theorem select_top_length (config : DistillConfig) (scored : list ScoredMemory) :
  let n := maxOutputPerAgent config in
  let c := Z.of_nat (length (List.filter
             (fun m => Z.leb (minQualityScore config) (qualityScore m)
                       && negb (String.eqb (category m) "noise")
                       && category_eligible config m) scored)) in
  length (select_top config scored) =
  Z.to_nat (if Z.leb 0 n then Z.min n c else Z.max 0 (c + n)).
Proof.
  simpl. rewrite select_top_unfold, length_slice0, length_sort_desc. reflexivity.
Qed.

Lemma StronglySorted_app_inv {A} (R : A -> A -> Prop) (l1 l2 : list A) :
  StronglySorted R (l1 ++ l2) ->
  StronglySorted R l1 /\ (forall a b, In a l1 -> In b l2 -> R a b).
Proof.
  induction l1 as [|x l1 IH]; simpl; intros Hs.
  - split; [constructor | intros a b []].
  - apply StronglySorted_inv in Hs as [Hs Hx].
    destruct (IH Hs) as [Hs1 Hab]. split.
    + constructor; [exact Hs1|].
      apply List.Forall_forall. intros y Hy. rewrite List.Forall_forall in Hx.
      apply Hx, in_or_app. left. exact Hy.
    + intros a b [<-|Ha] Hb.
      * rewrite List.Forall_forall in Hx. apply Hx, in_or_app. right. exact Hb.
      * exact (Hab a b Ha Hb).
Qed.

Lemma slice0_prefix {A} (n : Z) (l : list A) :
  exists rest, l = app (slice0 n l) rest.
Proof.
  unfold slice0. destruct (Z.leb 0 n);
    eexists; symmetry; apply firstn_skipn.
Qed.

(** X10: the selection is sorted by descending score, and an eligible record
    left out never scores above a selected one. *)
Theorem select_top_best (config : DistillConfig) (scored : list ScoredMemory)
    (x y : ScoredMemory) :
  StronglySorted score_ge (select_top config scored) /\
  (In x scored -> (minQualityScore config <= qualityScore x)%Z ->
   category x <> "noise" -> category_eligible config x = true ->
   ~ In x (select_top config scored) -> In y (select_top config scored) ->
   (qualityScore x <= qualityScore y)%Z).
Proof.
  unfold select_top.
  set (F := List.filter (category_eligible config)
              (List.filter (fun memory => negb (String.eqb (category memory) "noise"))
                 (List.filter (fun memory => Z.leb (minQualityScore config) (qualityScore memory))
                    scored))).
  destruct (slice0_prefix (maxOutputPerAgent config) (sort_desc F)) as [rest Hrest].
  pose proof (sort_desc_sorted F) as Hs. rewrite Hrest in Hs.
  apply StronglySorted_app_inv in Hs as [Hs Hab].
  split; [exact Hs|].
  intros Hx Hmin Hnoise Helig Hnot Hy.
  assert (HxF : In x (sort_desc F)).
  { apply sort_desc_In. unfold F.
    apply filter_In. split; [|exact Helig].
    apply filter_In. split; [|apply negb_true_iff, String.eqb_neq; exact Hnoise].
    apply filter_In. split; [exact Hx | apply Z.leb_le; exact Hmin]. }
  rewrite Hrest in HxF. apply in_app_or in HxF as [HxF|HxF]; [contradiction|].
  exact (Hab y x Hy HxF).
Qed.

Lemma select_top_best_witness :
  let mk i s := mkScoredMemory (mkAgentMemory i "" "" "trader" "" "" 0 None) s
                  "market_insight" [] None Rule None in
  let config := mkDistillConfig ["trader"] 60 2 DEFAULT_CATEGORIES true false false in
  let scored := [mk "a" 70%Z; mk "b" 95%Z; mk "c" 80%Z] in
  (In (mk "a" 70%Z) scored /\ (minQualityScore config <= qualityScore (mk "a" 70%Z))%Z /\
   category (mk "a" 70%Z) <> "noise" /\ category_eligible config (mk "a" 70%Z) = true /\
   ~ In (mk "a" 70%Z) (select_top config scored) /\ In (mk "c" 80%Z) (select_top config scored)) /\
  (qualityScore (mk "a" 70%Z) <= qualityScore (mk "c" 80%Z))%Z.
Proof.
  intros mk config scored.
  assert (Hx : In (mk "a" 70%Z) scored) by (left; reflexivity).
  assert (Hm : (minQualityScore config <= qualityScore (mk "a" 70%Z))%Z) by (simpl; lia).
  assert (Hn : category (mk "a" 70%Z) <> "noise") by discriminate.
  assert (He : category_eligible config (mk "a" 70%Z) = true) by reflexivity.
  assert (Hnot : ~ In (mk "a" 70%Z) (select_top config scored)).
  { vm_compute. intros [H|[H|[]]]; discriminate H. }
  assert (Hy : In (mk "c" 80%Z) (select_top config scored)) by (vm_compute; right; left; reflexivity).
  split; [repeat split; assumption|].
  exact (proj2 (select_top_best config scored (mk "a" 70%Z) (mk "c" 80%Z)) Hx Hm Hn He Hnot Hy).
Defined.


(* ------------------------------------------------------------------ *)
(** ** The [distill] loop *)

Lemma length_filter_le {A} (f : A -> bool) (l : list A) : length (List.filter f l) <= length l.
Proof. induction l as [|x l IH]; simpl; [lia|]. destruct (f x); simpl; lia. Qed.

Lemma length_select_top_le (config : DistillConfig) (scored : list ScoredMemory) :
  length (select_top config scored) <= length scored.
Proof.
  rewrite select_top_unfold. unfold slice0.
  destruct (Z.leb 0 (maxOutputPerAgent config));
    rewrite length_firstn, length_sort_desc;
    pose proof (length_filter_le (fun m => Z.leb (minQualityScore config) (qualityScore m)
                                   && negb (String.eqb (category m) "noise")
                                   && category_eligible config m) scored); lia.
Qed.

Lemma length_score_filtered_le (env : DistillEnv) (config : DistillConfig)
    (service : nat -> LlmService) (k : nat) (filtered : list AgentMemory) :
  length (score_filtered env config service k filtered) <= length filtered.
Proof.
  unfold score_filtered.
  destruct (llm_scoring_enabled env && negb (forceRuleOnly config)).
  - apply length_scoreBatch_le.
  - rewrite length_map. lia.
Qed.

Lemma distill_loop_snapshot env config store service k todo sel report :
  snapshotCreated (distill_loop env config store service k todo sel report).2 =
  snapshotCreated report.
Proof.
  revert k sel report. induction todo as [|a todo IH]; intros k sel report; simpl;
    [reflexivity|]. rewrite IH. reflexivity.
Qed.

Lemma distill_loop_processed env config store service k todo sel report :
  totalProcessed (distill_loop env config store service k todo sel report).2 =
  totalProcessed report +
  list_sum (map (fun agent => length (List.filter preFilter (store agent))) todo).
Proof.
  revert k sel report. induction todo as [|a todo IH]; intros k sel report; simpl;
    [lia|]. rewrite IH. simpl. lia.
Qed.

Lemma distill_loop_kept_le env config store service k todo sel report :
  totalKept report <= totalProcessed report ->
  totalKept (distill_loop env config store service k todo sel report).2 <=
  totalProcessed (distill_loop env config store service k todo sel report).2.
Proof.
  revert k sel report. induction todo as [|a todo IH]; intros k sel report H; simpl;
    [exact H|].
  apply IH. simpl.
  pose proof (length_select_top_le config
                (score_filtered env config service k (List.filter preFilter (store a)))).
  pose proof (length_score_filtered_le env config service k (List.filter preFilter (store a))).
  lia.
Qed.

Lemma distill_loop_byAgent env config store service k todo sel report :
  (forall agent, is_Some (byAgent (distill_loop env config store service k todo sel report).2 !! agent)
     <-> In agent todo \/ is_Some (byAgent report !! agent)) /\
  (forall agent s,
     byAgent (distill_loop env config store service k todo sel report).2 !! agent = Some s ->
     byAgent report !! agent = Some s \/
     (processed s = length (List.filter preFilter (store agent)) /\
      exists k', kept s = length (select_top config
                   (score_filtered env config service k' (List.filter preFilter (store agent)))))).
Proof.
  revert k sel report. induction todo as [|a todo IH]; intros k sel report; simpl.
  - split; [tauto|]. intros agent s H. left. exact H.
  - destruct (IH (S k) (<[a:=select_top config
                 (score_filtered env config service k (List.filter preFilter (store a)))]> sel)
                {| totalProcessed := totalProcessed report + length (List.filter preFilter (store a));
                   totalKept := totalKept report + length (select_top config
                      (score_filtered env config service k (List.filter preFilter (store a))));
                   totalDiscarded := totalDiscarded report;
                   byAgent := <[a:={| processed := length (List.filter preFilter (store a));
                                      kept := length (select_top config
                      (score_filtered env config service k (List.filter preFilter (store a)))) |}]>
                                (byAgent report);
                   snapshotCreated := snapshotCreated report |}) as [H1 H2].
    split.
    + intros agent. rewrite H1. simpl.
      destruct (decide (a = agent)) as [<-|Hne].
      * rewrite lookup_insert_eq. split; [tauto|]. intros _. right. eexists. reflexivity.
      * rewrite lookup_insert_ne by exact Hne. split; intros [H|H]; tauto.
    + intros agent s Hs. apply H2 in Hs as [Hs|Hs]; [|right; exact Hs].
      simpl in Hs. apply lookup_insert_Some in Hs as [[<- <-]|[_ Hs]].
      * right. simpl. split; [reflexivity|]. eexists. reflexivity.
      * left. exact Hs.
Qed.

(** Records of the [top] lists satisfy every property the [top] lists of the
    configured agents have. *)
Lemma distill_loop_sel (Q : ScoredMemory -> Prop) env config store service k todo sel report :
  (forall k' agent r, In agent todo ->
     In r (select_top config (score_filtered env config service k'
                                (List.filter preFilter (store agent)))) -> Q r) ->
  (forall agent l r, sel !! agent = Some l -> In r l -> Q r) ->
  forall agent l r,
    (distill_loop env config store service k todo sel report).1 !! agent = Some l ->
    In r l -> Q r.
Proof.
  revert k sel report. induction todo as [|a todo IH]; intros k sel report Htop Hsel; simpl;
    [exact Hsel|].
  apply IH.
  - intros k' agent r Hin. apply Htop. right. exact Hin.
  - intros agent l r Hl Hr. apply lookup_insert_Some in Hl as [[<- <-]|[_ Hl]].
    + eapply Htop; [left; reflexivity | exact Hr].
    + exact (Hsel agent l r Hl Hr).
Qed.

Lemma concat_snd_perm (l1 l2 : list (string * list ScoredMemory)) :
  Permutation l1 l2 -> length (concat (map snd l1)) = length (concat (map snd l2)).
Proof.
  induction 1; simpl; rewrite ?length_app; lia.
Qed.

Lemma length_flat_values_insert (m : gmap string (list ScoredMemory)) a x :
  length (flat_values (<[a:=x]> m)) = length x + length (flat_values (delete a m)).
Proof.
  unfold flat_values. rewrite <- insert_delete_eq.
  rewrite (concat_snd_perm _ _ (map_to_list_insert (delete a m) a x (lookup_delete_eq m a))).
  simpl. rewrite length_app. reflexivity.
Qed.

Lemma length_flat_values_delete (m : gmap string (list ScoredMemory)) a :
  length (flat_values (delete a m)) <= length (flat_values m) /\
  (m !! a = None -> length (flat_values (delete a m)) = length (flat_values m)).
Proof.
  destruct (m !! a) as [y|] eqn:E.
  - split; [|discriminate].
    unfold flat_values.
    rewrite <- (concat_snd_perm _ _ (map_to_list_delete m a y E)). simpl.
    rewrite length_app. lia.
  - rewrite delete_id by exact E. split; reflexivity.
Qed.

Lemma distill_loop_flat_le env config store service k todo sel report :
  length (flat_values sel) + totalKept (distill_loop env config store service k todo sel report).2
  >= length (flat_values (distill_loop env config store service k todo sel report).1)
     + totalKept report.
Proof.
  revert k sel report. induction todo as [|a todo IH]; intros k sel report; simpl; [lia|].
  match goal with |- context [distill_loop _ _ _ _ (S k) todo (<[a:=?x]> sel) ?r] =>
    specialize (IH (S k) (<[a:=x]> sel) r) end.
  simpl in IH.
  rewrite length_flat_values_insert in IH.
  pose proof (proj1 (length_flat_values_delete sel a)). lia.
Qed.

Lemma distill_loop_flat_eq env config store service k todo sel report :
  List.NoDup todo -> (forall agent, In agent todo -> sel !! agent = None) ->
  length (flat_values sel) + totalKept (distill_loop env config store service k todo sel report).2
  = length (flat_values (distill_loop env config store service k todo sel report).1)
     + totalKept report.
Proof.
  revert k sel report. induction todo as [|a todo IH]; intros k sel report Hnd Hnone; simpl;
    [lia|].
  inversion Hnd as [|? ? Hnotin Hnd']; subst.
  match goal with |- context [distill_loop _ _ _ _ (S k) todo (<[a:=?x]> sel) ?r] =>
    specialize (IH (S k) (<[a:=x]> sel) r Hnd') end.
  match type of IH with ?P -> _ => assert (Hn : P) end.
  { intros agent Hin. rewrite lookup_insert_ne by (intros ->; contradiction).
    apply Hnone. right. exact Hin. }
  specialize (IH Hn). simpl in IH. rewrite length_flat_values_insert in IH.
  rewrite (proj2 (length_flat_values_delete sel a) (Hnone a (or_introl eq_refl))) in IH.
  lia.
Qed.

Lemma distill_parts env store service config :
  let res := distill_loop env config store service 0 (agents config) ∅ initial_report in
  let out := distill env store service config in
  out.1.2 = flat_values res.1 /\
  totalProcessed out.1.1 = totalProcessed res.2 /\
  totalKept out.1.1 = totalKept res.2 /\
  byAgent out.1.1 = byAgent res.2 /\
  totalDiscarded out.1.1 = (Z.of_nat (totalProcessed res.2) - Z.of_nat (totalKept res.2))%Z /\
  snapshotCreated out.1.1 = negb (dryRun config) && createSnapshot config /\
  out.2 = if dryRun config then []
          else app (CreateGoldenCollection :: map Upsert (upsertGoldenMemories (flat_values res.1)))
                   (if createSnapshot config then [CreateSnapshot] else []).
Proof.
  simpl. unfold distill.
  pose proof (distill_loop_snapshot env config store service 0 (agents config) ∅ initial_report)
    as Hsnap.
  destruct (distill_loop env config store service 0 (agents config) ∅ initial_report)
    as [sel report] eqn:E.
  simpl in Hsnap |- *.
  destruct (dryRun config), (createSnapshot config); simpl;
    rewrite ?Hsnap, ?app_nil_r; repeat split; reflexivity.
Qed.

(** X11: the report counts every pre-filtered memory of every configured
    agent as processed, keeps at most that many, and reports the
    difference as discarded.  Each per-agent entry records the agent's
    pre-filtered count and keeps at most that many; when no configured
    agent is named [__proto__] (an assignment to that key of a plain
    object sets its prototype), there is an entry exactly for each
    configured agent. *)
Theorem distill_report_accounting (env : DistillEnv) (store : MemoryStore)
    (service : nat -> LlmService) (config : DistillConfig) :
  let report := (distill env store service config).1.1 in
  totalProcessed report =
    list_sum (map (fun agent => length (List.filter preFilter (store agent))) (agents config)) /\
  totalKept report <= totalProcessed report /\
  totalDiscarded report = (Z.of_nat (totalProcessed report) - Z.of_nat (totalKept report))%Z /\
  (0 <= totalDiscarded report)%Z /\
  (~ In "__proto__" (agents config) ->
   forall agent, is_Some (byAgent report !! agent) <-> In agent (agents config)) /\
  (forall agent s, byAgent report !! agent = Some s ->
     processed s = length (List.filter preFilter (store agent)) /\ kept s <= processed s).
Proof.
  destruct (distill_parts env store service config) as (_ & Hp & Hk & Hb & Hd & _).
  simpl. rewrite Hp, Hk, Hb, Hd.
  rewrite distill_loop_processed.
  pose proof (distill_loop_kept_le env config store service 0 (agents config) ∅ initial_report
                (le_n 0)) as Hle.
  rewrite distill_loop_processed in Hle.
  destruct (distill_loop_byAgent env config store service 0 (agents config) ∅ initial_report)
    as [H1 H2].
  split; [reflexivity|]. split; [exact Hle|]. split; [reflexivity|]. split; [lia|]. split.
  - intros _ agent. rewrite H1. simpl. rewrite lookup_empty.
    split; [intros [H|H]; [exact H | inversion H; discriminate] | tauto].
  - intros agent s Hs. apply H2 in Hs as [Hs|(Hproc & k' & Hkept)].
    + simpl in Hs. rewrite lookup_empty in Hs. discriminate.
    + split; [exact Hproc|]. rewrite Hkept, Hproc.
      pose proof (length_select_top_le config
                    (score_filtered env config service k' (List.filter preFilter (store agent)))).
      pose proof (length_score_filtered_le env config service k'
                    (List.filter preFilter (store agent))).
      lia.
Qed.

Lemma distill_report_accounting_witness :
  let m := mkAgentMemory "w11" "Resolved the deploy pipeline design issue for good" "" "fullstack" "" "" 0 None in
  let store := fun (agent : string) => if String.eqb agent "fullstack" then [m] else [] in
  let env := mkDistillEnv false (Some 10%Z) in
  let config := mkDistillConfig ["fullstack"; "trader"] 60 100 DEFAULT_CATEGORIES true false false in
  let service := fun (_ _ : nat) (_ : list AgentMemory) => NoContent in
  ~ In "__proto__" (agents config) /\
  is_Some (byAgent (distill env store service config).1.1 !! "trader") /\
  totalProcessed (distill env store service config).1.1 = 1.
Proof.
  intros m store env config service.
  assert (Hp : ~ In "__proto__" (agents config)) by (simpl; intros [H|[H|[]]]; discriminate H).
  destruct (distill_report_accounting env store service config) as (HP & _ & _ & _ & Hiff & _).
  split; [exact Hp|]. split.
  - apply (Hiff Hp). right. left. reflexivity.
  - rewrite HP. vm_compute. reflexivity.
Defined.

(** X12: the retained list is never longer than [totalKept], and has exactly
    that length when no agent is listed twice and none is named
    [__proto__] (which the plain object [selectedByAgent] does not keep as
    an entry). *)
Theorem retained_length_totalKept (env : DistillEnv) (store : MemoryStore)
    (service : nat -> LlmService) (config : DistillConfig) :
  length (retained env store service config) <= totalKept (distill env store service config).1.1 /\
  (List.NoDup (agents config) -> ~ In "__proto__" (agents config) ->
   length (retained env store service config) = totalKept (distill env store service config).1.1).
Proof.
  destruct (distill_parts env store service config) as (Hr & _ & Hk & _).
  unfold retained. simpl in *. rewrite Hr, Hk.
  pose proof (distill_loop_flat_le env config store service 0 (agents config) ∅ initial_report)
    as Hle.
  assert (H0 : length (flat_values (∅ : gmap string (list ScoredMemory))) = 0)
    by (unfold flat_values; rewrite map_to_list_empty; reflexivity).
  rewrite H0 in Hle. simpl in Hle. split; [lia|].
  intros Hnd _.
  pose proof (distill_loop_flat_eq env config store service 0 (agents config) ∅ initial_report
                Hnd (fun agent _ => lookup_empty agent)) as Heq.
  rewrite H0 in Heq. simpl in Heq. lia.
Qed.

Lemma retained_length_totalKept_witness :
  let m := mkAgentMemory "w12" "Resolved the deploy pipeline design issue for good" "" "fullstack" "" "" 0 None in
  let store := fun (agent : string) => if String.eqb agent "fullstack" then [m] else [] in
  let env := mkDistillEnv false (Some 10%Z) in
  let config := mkDistillConfig ["fullstack"; "trader"] 60 100 DEFAULT_CATEGORIES true false false in
  let service := fun (_ _ : nat) (_ : list AgentMemory) => NoContent in
  List.NoDup (agents config) /\ ~ In "__proto__" (agents config) /\
  length (retained env store service config) = totalKept (distill env store service config).1.1 /\
  totalKept (distill env store service config).1.1 = 1.
Proof.
  intros m store env config service.
  assert (Hnd : List.NoDup (agents config)).
  { simpl. constructor; [intros [H|[]]; discriminate H|]. constructor; [intros []|constructor]. }
  assert (Hp : ~ In "__proto__" (agents config)) by (simpl; intros [H|[H|[]]]; discriminate H).
  split; [exact Hnd|]. split; [exact Hp|]. split.
  - exact (proj2 (retained_length_totalKept env store service config) Hnd Hp).
  - vm_compute. reflexivity.
Defined.


(* ------------------------------------------------------------------ *)
Lemma retained_In env store service config r :
  In r (retained env store service config) ->
  exists k agent, In agent (agents config) /\
    In r (select_top config (score_filtered env config service k
                               (List.filter preFilter (store agent)))).
Proof.
  unfold retained. destruct (distill_parts env store service config) as (Hr & _).
  simpl in Hr. rewrite Hr. intros H.
  apply flat_values_In in H as (agent & l & Hl & Hin).
  refine (distill_loop_sel (fun r => exists k agent, In agent (agents config) /\
    In r (select_top config (score_filtered env config service k
                               (List.filter preFilter (store agent)))))
    env config store service 0 (agents config) ∅ initial_report _ _ agent l r Hl Hin).
  - intros k' a r' Ha Hr'. exists k', a. auto.
  - intros a l' r' Habs. rewrite lookup_empty in Habs. discriminate.
Qed.

Lemma score_filtered_base_In env config service k filtered r :
  In r (score_filtered env config service k filtered) -> In (base r) filtered.
Proof.
  unfold score_filtered.
  destruct (llm_scoring_enabled env && negb (forceRuleOnly config)).
  - apply scoreBatch_base_In.
  - intros H. apply in_map_iff in H as (m & <- & Hm). rewrite scoreMemory_base. exact Hm.
Qed.

(** X13: every retained record belongs to a configured agent, passes the
    pre-filter, meets the minimum score and has an allowed category. *)
Theorem retained_sound (env : DistillEnv) (store : MemoryStore)
    (service : nat -> LlmService) (config : DistillConfig) (r : ScoredMemory) :
  In r (retained env store service config) ->
  exists agent, In agent (agents config) /\ In (base r) (store agent) /\
    preFilter (base r) = true /\
    (minQualityScore config <= qualityScore r)%Z /\ In (category r) (categories config).
Proof.
  intros H. apply retained_In in H as (k & agent & Hagent & Hr).
  apply select_top_In in Hr as (Hs & Hmin & _ & Helig).
  apply score_filtered_base_In in Hs. apply filter_In in Hs as [Hs Hpre].
  exists agent. repeat split; try assumption.
  unfold category_eligible in Helig. apply existsb_exists in Helig as (c & Hc & He).
  apply String.eqb_eq in He. rewrite He. exact Hc.
Qed.

Lemma retained_sound_witness :
  let m := mkAgentMemory "w13" "Resolved the deploy pipeline design issue for good" "" "fullstack" "" "" 0 None in
  let store := fun (agent : string) => if String.eqb agent "fullstack" then [m] else [] in
  let env := mkDistillEnv false (Some 10%Z) in
  let config := mkDistillConfig ["fullstack"] 60 100 DEFAULT_CATEGORIES true false false in
  let service := fun (_ _ : nat) (_ : list AgentMemory) => NoContent in
  In (scoreMemory m) (retained env store service config) /\
  exists agent, In agent (agents config) /\ In (base (scoreMemory m)) (store agent) /\
    preFilter (base (scoreMemory m)) = true /\
    (minQualityScore config <= qualityScore (scoreMemory m))%Z /\
    In (category (scoreMemory m)) (categories config).
Proof.
  intros m store env config service.
  assert (H : In (scoreMemory m) (retained env store service config))
    by (vm_compute; left; reflexivity).
  split; [exact H|]. exact (retained_sound env store service config (scoreMemory m) H).
Defined.

(** X14: when LLM scoring is on and the batch size does not parse as a
    number, the distillation keeps nothing although it still counts every
    pre-filtered memory as processed. *)
Theorem distill_llm_nan_batch_keeps_nothing (env : DistillEnv) (store : MemoryStore)
    (service : nat -> LlmService) (config : DistillConfig) :
  llm_scoring_enabled env = true -> forceRuleOnly config = false ->
  llm_batch_size env = None ->
  retained env store service config = [] /\
  totalKept (distill env store service config).1.1 = 0 /\
  totalProcessed (distill env store service config).1.1 =
    list_sum (map (fun agent => length (List.filter preFilter (store agent))) (agents config)).
Proof.
  intros Hllm Hforce Hnan.
  assert (Hsf : forall k filtered, score_filtered env config service k filtered = []).
  { intros k filtered. unfold score_filtered. rewrite Hllm, Hforce, Hnan. simpl.
    apply scoreBatch_None. }
  assert (Hp : totalProcessed (distill env store service config).1.1 =
    list_sum (map (fun agent => length (List.filter preFilter (store agent))) (agents config))).
  { destruct (distill_parts env store service config) as (_ & Hp & _).
    rewrite Hp, distill_loop_processed. reflexivity. }
  split; [|split; [|exact Hp]].
  - destruct (retained env store service config) as [|r rs] eqn:E; [reflexivity|].
    exfalso. assert (Hr : In r (retained env store service config)) by (rewrite E; left; auto).
    apply retained_In in Hr as (k & agent & _ & Hr). rewrite Hsf in Hr.
    unfold select_top, slice0 in Hr. destruct (Z.leb 0 _); simpl in Hr;
      rewrite firstn_nil in Hr; exact Hr.
  - destruct (distill_parts env store service config) as (_ & _ & Hk & _).
    simpl in Hk |- *. rewrite Hk.
    assert (Hloop : forall k todo sel report, totalKept report = 0 ->
      totalKept (distill_loop env config store service k todo sel report).2 = 0).
    { intros k todo. revert k. induction todo as [|a todo IH]; intros k sel report H0; simpl;
        [exact H0|].
      apply IH. simpl. rewrite Hsf, H0.
      unfold select_top, slice0. destruct (Z.leb 0 _); simpl; rewrite firstn_nil; reflexivity. }
    apply Hloop. reflexivity.
Qed.

Lemma distill_llm_nan_batch_keeps_nothing_witness :
  let m := mkAgentMemory "w6" "Resolved the deploy pipeline design issue for good" "" "fullstack" "" "" 0 None in
  let store := fun (agent : string) => if String.eqb agent "fullstack" then [m] else [] in
  let env := mkDistillEnv true None in
  let config := mkDistillConfig ["fullstack"] 60 100 DEFAULT_CATEGORIES true false false in
  let service := fun (_ _ : nat) (_ : list AgentMemory) => NoContent in
  (llm_scoring_enabled env = true /\ forceRuleOnly config = false /\ llm_batch_size env = None) /\
  retained env store service config = [] /\
  totalKept (distill env store service config).1.1 = 0 /\
  totalProcessed (distill env store service config).1.1 = 1.
Proof.
  intros m store env config service.
  split; [repeat split|].
  destruct (distill_llm_nan_batch_keeps_nothing env store service config eq_refl eq_refl eq_refl)
    as (H1 & H2 & H3).
  split; [exact H1|]. split; [exact H2|]. rewrite H3. vm_compute. reflexivity.
Defined.

Lemma chunk_count (n : nat) : 1 <= n -> S ((n - 128 + 127) / 128) = (n + 127) / 128.
Proof.
  intros H. destruct (Nat.le_gt_cases n 128) as [Hs|Hs].
  - replace (n - 128 + 127) with 127 by lia. rewrite (Nat.div_small 127 128) by lia.
    apply Nat.div_unique with (r := n - 1); lia.
  - replace (n + 127) with ((n - 128 + 127) + 1 * 128) by lia.
    rewrite Nat.div_add by lia. lia.
Qed.

Lemma upsert_chunks_shape (fuel : nat) (points : list GoldenPoint) :
  length points <= fuel ->
  Forall (fun chunk => 1 <= length chunk <= 128) (upsert_chunks fuel points) /\
  length (upsert_chunks fuel points) = (length points + 127) / 128.
Proof.
  revert points. induction fuel as [|fuel IH]; intros points Hle; simpl.
  - destruct points; simpl in *; [split; [constructor | reflexivity] | lia].
  - destruct points as [|p points']; [split; [constructor | reflexivity]|].
    set (points := p :: points') in *.
    destruct (IH (skipn 128 points)) as [Hf Hl]; [rewrite length_skipn; simpl in *; lia|].
    split.
    + constructor; [|exact Hf]. rewrite length_firstn. unfold points; cbn [length]. lia.
    + cbn [length]. rewrite Hl, length_skipn. apply chunk_count. unfold points. simpl. lia.
Qed.

(** X15: a dry run writes nothing; otherwise the run creates the golden
    collection, upserts the retained records in chunks of 1 to 128 points in
    order, and takes a snapshot exactly when asked. *)
Theorem distill_writes (env : DistillEnv) (store : MemoryStore)
    (service : nat -> LlmService) (config : DistillConfig) :
  let out := distill env store service config in
  (dryRun config = true -> out.2 = [] /\ snapshotCreated out.1.1 = false) /\
  (dryRun config = false ->
   exists chunks,
     out.2 = app (CreateGoldenCollection :: map Upsert chunks)
                 (if createSnapshot config then [CreateSnapshot] else []) /\
     concat chunks = map to_point out.1.2 /\
     Forall (fun chunk => 1 <= length chunk <= 128) chunks /\
     length chunks = (length out.1.2 + 127) / 128 /\
     snapshotCreated out.1.1 = createSnapshot config).
Proof.
  destruct (distill_parts env store service config) as (Hr & _ & _ & _ & _ & Hs & Hw).
  simpl in *. split.
  - intros Hd. rewrite Hw, Hs, Hd. split; reflexivity.
  - intros Hd. rewrite Hd in Hw, Hs.
    exists (upsertGoldenMemories (distill env store service config).1.2).
    rewrite Hw, Hs, Hr. split; [reflexivity|]. split; [apply upsert_points|].
    unfold upsertGoldenMemories.
    destruct (flat_values _) as [|m ms]; [repeat split; constructor|].
    destruct (upsert_chunks_shape (length (map to_point (m :: ms))) (map to_point (m :: ms)) (le_n _))
      as [Hf Hl].
    split; [exact Hf|]. split; [|reflexivity]. rewrite Hl, length_map. reflexivity.
Qed.

Lemma distill_writes_witness :
  let m := mkAgentMemory "w14" "Resolved the deploy pipeline design issue for good" "" "fullstack" "" "" 0 None in
  let store := fun (agent : string) => if String.eqb agent "fullstack" then [m] else [] in
  let env := mkDistillEnv false (Some 10%Z) in
  let config := mkDistillConfig ["fullstack"] 60 100 DEFAULT_CATEGORIES false true false in
  let service := fun (_ _ : nat) (_ : list AgentMemory) => NoContent in
  dryRun config = false /\
  exists chunks,
    (distill env store service config).2 =
      app (CreateGoldenCollection :: map Upsert chunks) [CreateSnapshot] /\
    length chunks = 1.
Proof.
  intros m store env config service. split; [reflexivity|].
  destruct (proj2 (distill_writes env store service config) eq_refl)
    as (chunks & Hw & _ & _ & Hl & _).
  exists chunks. split; [exact Hw|]. rewrite Hl. vm_compute. reflexivity.
Defined.


(* ------------------------------------------------------------------ *)
Lemma distill_loop_ext env env' config store service service' k todo sel report :
  (forall k' f, score_filtered env config service k' f = score_filtered env' config service' k' f) ->
  distill_loop env config store service k todo sel report =
  distill_loop env' config store service' k todo sel report.
Proof.
  intros H. revert k sel report.
  induction todo as [|a todo IH]; intros k sel report; simpl; [reflexivity|].
  rewrite H. apply IH.
Qed.

Lemma distill_ext env env' store service service' config :
  (forall k' f, score_filtered env config service k' f = score_filtered env' config service' k' f) ->
  distill env store service config = distill env' store service' config.
Proof.
  intros H. unfold distill. rewrite (distill_loop_ext env env' config store service service');
    [reflexivity | exact H].
Qed.

Lemma score_filtered_rule env config service k f :
  forceRuleOnly config = true -> score_filtered env config service k f = map scoreMemory f.
Proof.
  intros H. unfold score_filtered. rewrite H, andb_false_r. reflexivity.
Qed.

Lemma scoreMemory_method (memory : AgentMemory) : scoringMethod (scoreMemory memory) = Rule.
Proof.
  pose proof (scoreMemory_fields memory) as H.
  destruct (raw_score_tags (toLowerCase (text memory))). rewrite H. reflexivity.
Qed.

Lemma length_slice0_le {A} (n : nat) (l : list A) : length (slice0 (Z.of_nat n) l) <= n.
Proof.
  unfold slice0. replace (Z.leb 0 (Z.of_nat n)) with true by (symmetry; apply Z.leb_le; lia).
  rewrite length_firstn. lia.
Qed.

(** X18: [buildReport] performs no write, creates no snapshot, uses neither
    the environment nor the model, and yields rule-scored records of score
    at least 60 with at most five kept per agent. *)
Theorem buildReport_read_only (env env' : DistillEnv) (store : MemoryStore)
    (service service' : nat -> LlmService) (agents : list string) :
  let out := buildReport env store service agents in
  out = buildReport env' store service' agents /\
  out.2 = [] /\ snapshotCreated out.1.1 = false /\
  (forall r, In r out.1.2 -> scoringMethod r = Rule /\ (60 <= qualityScore r)%Z) /\
  (forall agent s, byAgent out.1.1 !! agent = Some s -> kept s <= 5).
Proof.
  unfold buildReport.
  set (config := buildReport_config agents).
  assert (Hrule : forall e s k f, score_filtered e config s k f = map scoreMemory f)
    by (intros; apply score_filtered_rule; reflexivity).
  split; [apply distill_ext; intros; rewrite !Hrule; reflexivity|].
  destruct (distill_parts env store service config) as (Hr & _ & _ & Hb & _ & Hs & Hw).
  simpl in *. split; [exact Hw|]. split; [exact Hs|]. split.
  - intros r H. change (In r (retained env store service config)) in H.
    apply retained_In in H as (k & agent & _ & H).
    apply select_top_In in H as (H & Hmin & _).
    rewrite Hrule in H. apply in_map_iff in H as (m & <- & _).
    split; [apply scoreMemory_method | exact Hmin].
  - intros agent s H. rewrite Hb in H.
    destruct (distill_loop_byAgent env config store service 0 agents ∅ initial_report) as [_ H2].
    apply H2 in H as [H|(_ & k' & Hk)].
    + simpl in H. rewrite lookup_empty in H. discriminate.
    + rewrite Hk. unfold select_top. change (maxOutputPerAgent config) with (Z.of_nat 5).
      apply length_slice0_le.
Qed.

(** X19: the CLI scores with the model exactly when [--rule-only] is absent
    and either [--llm] is given or LLM scoring was already enabled in the
    environment. *)
Theorem cli_scoring_mode (prev : option string) (batch_size : option Z)
    (options : CliOptions.t) (service : nat -> LlmService) (k : nat)
    (filtered : list AgentMemory) :
  score_filtered (read_env (cli_scoring_env prev options) batch_size) (cli_config options)
    service k filtered =
  if negb (CliOptions.ruleOnly options) &&
     (CliOptions.llm options || bool_decide (prev = Some "true"))
  then scoreBatch (service k) batch_size filtered
  else map scoreMemory filtered.
Proof.
  unfold score_filtered, read_env, cli_scoring_env, cli_config, buildDistillConfig. simpl.
  destruct (CliOptions.ruleOnly options), (CliOptions.llm options); simpl; try reflexivity.
  destruct prev as [s|].
  - destruct (String.eqb_spec s "true") as [->|Hne].
    + rewrite bool_decide_eq_true_2 by reflexivity. reflexivity.
    + rewrite bool_decide_eq_false_2 by congruence. reflexivity.
  - rewrite bool_decide_eq_false_2 by discriminate. reflexivity.
Qed.

Lemma cli_rule_only_score (prev : option string) (batch_size : option Z)
    (options : CliOptions.t) (service : nat -> LlmService) (k : nat) (f : list AgentMemory) :
  CliOptions.ruleOnly options = true ->
  score_filtered (read_env (cli_scoring_env prev options) batch_size) (cli_config options)
    service k f = map scoreMemory f.
Proof.
  intros H. unfold score_filtered, cli_scoring_env. rewrite H. reflexivity.
Qed.

(** X20: with [--rule-only] the CLI result does not depend on the previous
    environment, the batch size or the model. *)
Theorem cli_rule_only_ignores_llm (prev prev' : option string) (bs bs' : option Z)
    (store : MemoryStore) (service service' : nat -> LlmService) (options : CliOptions.t) :
  CliOptions.ruleOnly options = true ->
  cli_distill prev bs store service options = cli_distill prev' bs' store service' options.
Proof.
  intros H. unfold cli_distill. apply distill_ext. intros k f.
  rewrite !cli_rule_only_score by exact H. reflexivity.
Qed.

Lemma cli_rule_only_ignores_llm_witness :
  let options := CliOptions.mk None None None true false true true in
  let m := mkAgentMemory "w20" "Resolved the deploy pipeline design issue for good" "" "fullstack" "" "" 0 None in
  let store := fun (agent : string) => if String.eqb agent "fullstack" then [m] else [] in
  let service := fun (_ _ : nat) (_ : list AgentMemory) => NoContent in
  let service' := fun (_ _ : nat) (_ : list AgentMemory) =>
                    Content (JsonArray [JsonItem (mkLlmItem (JFin 0) (JFin 99) "system_rule" "x")]) in
  CliOptions.ruleOnly options = true /\
  cli_distill (Some "true") (Some 10%Z) store service options =
  cli_distill None None store service' options.
Proof.
  intros options m store service service'. split; [reflexivity|].
  apply cli_rule_only_ignores_llm. reflexivity.
Defined.

(** X21: [buildFilter] treats an empty agent or namespace as absent, and
    returns no filter exactly when both are absent or empty. *)
Theorem buildFilter_empty_is_absent (agent namespace : option string) :
  buildFilter (Some "") namespace = buildFilter None namespace /\
  buildFilter agent (Some "") = buildFilter agent None /\
  (buildFilter agent namespace = None <->
     (agent = None \/ agent = Some "") /\ (namespace = None \/ namespace = Some "")).
Proof.
  unfold buildFilter. split; [reflexivity|]. split.
  - destruct agent as [a|]; [destruct (String.eqb a "")|]; reflexivity.
  - destruct agent as [a|], namespace as [n|];
      try destruct (String.eqb_spec a "") as [->|Ha];
      try destruct (String.eqb_spec n "") as [->|Hn]; simpl;
      split; intros H; try discriminate; try tauto;
      destruct H as [[H1|H1] [H2|H2]]; congruence.
Qed.

Lemma length_substring0 (m : nat) (s : string) :
  String.length (substring 0 m s) = Nat.min m (String.length s).
Proof.
  revert m. induction s as [|c s IH]; intros m; destruct m as [|m]; simpl; try reflexivity.
  rewrite IH. reflexivity.
Qed.

Lemma truncate_cases (text : string) (n : Z) :
  (3 <= n)%Z ->
  ((Z.of_nat (String.length text) <= n)%Z -> truncate text n = text) /\
  ((n < Z.of_nat (String.length text))%Z ->
     truncate text n = (substring 0 (Z.to_nat (n - 3)) text ++ "...") /\
     Z.of_nat (String.length (truncate text n)) = n).
Proof.
  intros H3. unfold truncate. split.
  - intros Hle. destruct (Z.ltb_spec n (Z.of_nat (String.length text))); [lia|reflexivity].
  - intros Hlt. destruct (Z.ltb_spec n (Z.of_nat (String.length text))); [|lia].
    unfold str_slice0. destruct (Z.leb_spec 0 (n - 3)); [|lia].
    split; [reflexivity|].
    rewrite length_string_append, length_substring0. simpl. lia.
Qed.

(** X16: for a limit of at least 3, [truncate] leaves texts up to the limit
    unchanged and cuts longer ones to exactly the limit, ending in three
    dots. *)
Theorem truncate_spec (text : string) (n : Z) :
  (3 <= n)%Z ->
  ((Z.of_nat (String.length text) <= n)%Z -> truncate text n = text) /\
  ((n < Z.of_nat (String.length text))%Z ->
     truncate text n = (substring 0 (Z.to_nat (n - 3)) text ++ "...") /\
     Z.of_nat (String.length (truncate text n)) = n).
Proof. apply truncate_cases. Qed.

Lemma truncate_spec_witness :
  (3 <= 160)%Z /\
  truncate "short note" 160 = "short note" /\
  Z.of_nat (String.length (truncate (String.concat "" (repeat "0123456789" 20)) 160)) = 160%Z.
Proof.
  split; [lia|]. split.
  - apply (proj1 (truncate_spec "short note" 160 ltac:(lia))). simpl. lia.
  - apply (proj2 (truncate_spec (String.concat "" (repeat "0123456789" 20)) 160 ltac:(lia))).
    vm_compute. reflexivity.
Defined.

Lemma StronglySorted_map {A B} (R : A -> A -> Prop) (R' : B -> B -> Prop) (f : A -> B)
    (l : list A) :
  (forall x y, R x y -> R' (f x) (f y)) -> StronglySorted R l -> StronglySorted R' (map f l).
Proof.
  intros HR. induction 1 as [|x l Hs IH Hx]; simpl; constructor; [exact IH|].
  apply List.Forall_forall. intros y Hy. apply in_map_iff in Hy as (z & <- & Hz).
  apply HR. rewrite List.Forall_forall in Hx. exact (Hx z Hz).
Qed.

Lemma select_top_sorted (config : DistillConfig) (scored : list ScoredMemory) :
  StronglySorted score_ge (select_top config scored).
Proof.
  unfold select_top.
  set (F := List.filter (category_eligible config) _).
  destruct (slice0_prefix (maxOutputPerAgent config) (sort_desc F)) as [rest Hrest].
  pose proof (sort_desc_sorted F) as Hs. rewrite Hrest in Hs.
  exact (proj1 (StronglySorted_app_inv _ _ _ Hs)).
Qed.

(** X17: the report previews show at most five records, in the order of the
    selection with their scores, each text at most 160 characters long. *)
Theorem topMemories_preview (config : DistillConfig) (scored : list ScoredMemory) :
  let top := select_top config scored in
  let previews := topMemories top in
  length previews = Nat.min 5 (length top) /\
  map top_score previews = map qualityScore (firstn 5 top) /\
  StronglySorted (fun p1 p2 => (top_score p2 <= top_score p1)%Z) previews /\
  Forall (fun p => String.length (top_text p) <= 160) previews.
Proof.
  simpl. unfold topMemories, slice0. simpl.
  split; [rewrite length_map, length_firstn; reflexivity|].
  split; [rewrite map_map; reflexivity|].
  split.
  - apply (StronglySorted_map score_ge); [intros x y H; exact H|].
    pose proof (select_top_sorted config scored) as Hs.
    rewrite <- (firstn_skipn 5 (select_top config scored)) in Hs.
    exact (proj1 (StronglySorted_app_inv _ _ _ Hs)).
  - apply List.Forall_forall. intros p Hp. apply in_map_iff in Hp as (m & <- & _). simpl.
    destruct (truncate_cases (text (base m)) 160 ltac:(lia)) as [H1 H2].
    destruct (Z.le_gt_cases (Z.of_nat (String.length (text (base m)))) 160) as [H|H].
    + rewrite (H1 H). lia.
    + destruct (H2 H) as [_ H']. lia.
Qed.


(* ------------------------------------------------------------------ *)
Lemma fence_match_unfold (s : string) :
  fence_match s =
  match fence_match_at s with
  | Some c => Some c
  | None => match s with
            | EmptyString => None
            | String _ s' => fence_match s'
            end
  end.
Proof. destruct s; reflexivity. Qed.

Lemma lazy_capture_unfold (t : string) :
  lazy_capture t =
  if fence_closes t then Some EmptyString
  else match t with
       | EmptyString => None
       | String c t' => option_map (String c) (lazy_capture t')
       end.
Proof. destruct t; reflexivity. Qed.

Lemma str_drop_app (a b : string) : str_drop (String.length a) (a ++ b) = b.
Proof. induction a as [|c a IH]; [reflexivity|]. exact IH. Qed.

Lemma fence_match_at_open (r : string) :
  fence_match_at ("```" ++ r) =
  match (if String.prefix "json" (toLowerCase r) then fence_body (str_drop 4 r) else None) with
  | Some c => Some c
  | None => fence_body r
  end.
Proof.
  unfold fence_match_at.
  replace (String.prefix "```" ("```" ++ r)) with true
    by (symmetry; apply prefix_spec; eexists; reflexivity).
  exact (f_equal (fun x => match (if String.prefix "json" (toLowerCase x) then fence_body (str_drop 4 x) else None) with Some c => Some c | None => fence_body x end) (str_drop_app "```" r)).
Qed.

Lemma prefix_fence_cons (c : ascii) (s : string) :
  c <> "`"%char -> String.prefix "```" (String c s) = false.
Proof.
  intros H. destruct (String.prefix _ _) eqn:E; [|reflexivity].
  apply prefix_spec in E as (b & Hb). rewrite string_append_cons in Hb.
  injection Hb. congruence.
Qed.

Lemma fence_match_at_cons (c : ascii) (s : string) :
  c <> "`"%char -> fence_match_at (String c s) = None.
Proof. intros H. unfold fence_match_at. rewrite prefix_fence_cons by exact H. reflexivity. Qed.

Lemma includes_backtick_cons (c : ascii) (s : string) :
  includes (String c s) "`" = false -> c <> "`"%char /\ includes s "`" = false.
Proof.
  rewrite includes_unfold. destruct (String.prefix "`" (String c s)) eqn:E; [discriminate|].
  intros H. split; [|exact H]. intros ->.
  assert (String.prefix "`" (String "`" s) = true) by (apply prefix_spec; exists s; reflexivity).
  congruence.
Qed.

Lemma fence_match_skip (pre s : string) :
  includes pre "`" = false -> fence_match (pre ++ s) = fence_match s.
Proof.
  induction pre as [|c pre IH]; intros H; [reflexivity|].
  apply includes_backtick_cons in H as [Hc H].
  rewrite string_append_cons, fence_match_unfold, fence_match_at_cons by exact Hc.
  apply IH, H.
Qed.

Lemma fence_match_none (s : string) :
  includes s "```" = false -> fence_match s = None.
Proof.
  induction s as [|c s IH]; intros H; [reflexivity|].
  rewrite includes_unfold in H. rewrite fence_match_unfold.
  unfold fence_match_at. destruct (String.prefix "```" (String c s)); [discriminate|].
  apply IH, H.
Qed.

Lemma trim_start_app_ws (a b : string) :
  trim_start a = "" -> trim_start (a ++ b) = trim_start b.
Proof.
  induction a as [|c a IH]; intros H; [reflexivity|].
  simpl in H. rewrite string_append_cons. simpl.
  destruct (is_ws c); [apply IH, H | discriminate].
Qed.

Lemma trim_start_visible (c : ascii) (s : string) :
  is_ws c = false -> trim_start (String c s) = String c s.
Proof. intros H. simpl. rewrite H. reflexivity. Qed.

Lemma fence_closes_ws (ws post : string) :
  trim_start ws = "" -> fence_closes (ws ++ "```" ++ post) = true.
Proof.
  intros H. unfold fence_closes. rewrite trim_start_app_ws by exact H.
  rewrite !string_append_cons, string_append_nil_l, trim_start_visible by reflexivity.
  apply prefix_spec. exists post. reflexivity.
Qed.

Lemma lazy_capture_closing (ws post : string) :
  trim_start ws = "" -> lazy_capture (ws ++ "```" ++ post) = Some "".
Proof.
  intros H. rewrite lazy_capture_unfold, fence_closes_ws by exact H. reflexivity.
Qed.

Lemma fence_closes_text (b t : string) :
  includes b "`" = false -> trim_start b <> "" -> fence_closes (b ++ t) = false.
Proof.
  induction b as [|c b IH]; intros Hi Hne; [simpl in Hne; congruence|].
  apply includes_backtick_cons in Hi as [Hc Hi].
  unfold fence_closes in *. rewrite string_append_cons. simpl in Hne |- *.
  destruct (is_ws c).
  - apply IH; assumption.
  - apply prefix_fence_cons, Hc.
Qed.

Lemma last_visible_tail (c : ascii) (b : string) :
  (forall c1 r, rev_string (String c b) = String c1 r -> is_ws c1 = false) ->
  forall c1 r, rev_string b = String c1 r -> is_ws c1 = false.
Proof.
  intros H c1 r E. apply (H c1 (r ++ String c "")). simpl. rewrite E. reflexivity.
Qed.

Lemma trim_start_last_visible (b : string) :
  (forall c1 r, rev_string b = String c1 r -> is_ws c1 = false) ->
  b <> "" -> trim_start b <> "".
Proof.
  induction b as [|c b IH]; intros H Hne; [congruence|].
  simpl. destruct (is_ws c) eqn:Ec; [|discriminate].
  destruct b as [|d b].
  - exfalso. specialize (H c ""). rewrite H in Ec by reflexivity. discriminate.
  - apply IH; [exact (last_visible_tail c _ H) | discriminate].
Qed.

(** The lazy group stops at the first closing fence: a body without
    backticks that ends in a visible character is captured whole. *)
Lemma lazy_capture_body (b t : string) :
  includes b "`" = false ->
  (forall c1 r, rev_string b = String c1 r -> is_ws c1 = false) ->
  lazy_capture t = Some "" -> lazy_capture (b ++ t) = Some b.
Proof.
  induction b as [|c b IH]; intros Hi Hl Ht; [exact Ht|].
  rewrite string_append_cons, lazy_capture_unfold.
  rewrite <- string_append_cons.
  rewrite fence_closes_text by
    (first [exact Hi | apply trim_start_last_visible; [exact Hl | discriminate]]).
  try rewrite string_append_cons.
  apply includes_backtick_cons in Hi as [_ Hi].
  rewrite (IH Hi (last_visible_tail c b Hl) Ht). reflexivity.
Qed.

Lemma prefix_json_tag (tag r : string) :
  toLowerCase tag = "json" ->
  String.prefix "json" (toLowerCase (tag ++ r)) = true /\ str_drop 4 (tag ++ r) = r.
Proof.
  intros H. split.
  - rewrite toLowerCase_append, H. apply prefix_spec. eexists. reflexivity.
  - pose proof (length_toLowerCase tag) as Hl. rewrite H in Hl. simpl in Hl.
    rewrite Hl. apply str_drop_app.
Qed.

Lemma prefix_json_cons (c : ascii) (s : string) :
  lower_char c <> "j"%char -> String.prefix "json" (toLowerCase (String c s)) = false.
Proof.
  intros H. destruct (String.prefix _ _) eqn:E; [|reflexivity].
  apply prefix_spec in E as (b & Hb). rewrite string_append_cons in Hb.
  injection Hb. congruence.
Qed.

Lemma lower_char_ws_not_j (c : ascii) : is_ws c = true -> lower_char c <> "j"%char.
Proof. intros H E. rewrite <- is_ws_lower_char, E in H. discriminate. Qed.

(** Without an explicit tag, the body is not taken for the word [json]
    when white space or a character other than [j]/[J] follows the
    opening fence. *)
Lemma prefix_json_ws (ws r : string) (c : ascii) (r' : string) :
  trim_start ws = "" -> r = String c r' -> lower_char c <> "j"%char ->
  String.prefix "json" (toLowerCase (ws ++ r)) = false.
Proof.
  intros Hw -> Hc. destruct ws as [|w ws].
  - apply prefix_json_cons, Hc.
  - rewrite string_append_cons. apply prefix_json_cons, lower_char_ws_not_j.
    simpl in Hw. destruct (is_ws w); [reflexivity | discriminate].
Qed.

(** X4: a reply containing no triple backtick is returned unchanged by
    [stripCodeFence]. *)
Theorem stripCodeFence_no_fence (text : string) :
  includes text "```" = false -> stripCodeFence text = text.
Proof.
  intros H. unfold stripCodeFence. rewrite fence_match_none by exact H. reflexivity.
Qed.

Lemma stripCodeFence_no_fence_witness :
  includes "[1, 2]" "```" = false /\
  stripCodeFence "[1, 2]" = "[1, 2]".
Proof.
  split; [reflexivity|]. apply stripCodeFence_no_fence. reflexivity.
Defined.

Lemma fence_body_closing (ws post : string) :
  trim_start ws = "" -> fence_body (ws ++ "```" ++ post) = Some "".
Proof.
  intros H. unfold fence_body. rewrite trim_start_app_ws by exact H.
  replace (trim_start ("```" ++ post)) with ("" ++ "```" ++ post) by reflexivity.
  apply lazy_capture_closing. reflexivity.
Qed.

Lemma fence_match_whole (s : string) (body : string) :
  fence_match_at s = Some body -> fence_match s = Some body.
Proof. intros H. rewrite fence_match_unfold, H. reflexivity. Qed.

(** X5: when the reply is backtick-free prose followed by a fence whose
    body is empty or white space only (with or without a json tag in any
    letter case), [stripCodeFence] returns the whole reply unchanged. *)
Theorem stripCodeFence_empty_fence (pre tag ws post : string) :
  includes pre "`" = false ->
  toLowerCase tag = "json" \/ tag = "" ->
  trim_start ws = "" ->
  stripCodeFence (pre ++ "```" ++ tag ++ ws ++ "```" ++ post) =
  (pre ++ "```" ++ tag ++ ws ++ "```" ++ post).
Proof.
  intros Hpre Htag Hws. unfold stripCodeFence.
  rewrite fence_match_skip by exact Hpre.
  assert (Hat : fence_match_at ("```" ++ tag ++ ws ++ "```" ++ post) = Some "").
  { rewrite fence_match_at_open. destruct Htag as [Htag | ->].
    - destruct (prefix_json_tag tag (ws ++ "```" ++ post) Htag) as [-> ->].
      rewrite fence_body_closing by exact Hws. reflexivity.
    - rewrite string_append_nil_l.
      rewrite (prefix_json_ws ws ("```" ++ post) "`" ("``" ++ post)) by
        (first [exact Hws | reflexivity | discriminate]).
      rewrite fence_body_closing by exact Hws. reflexivity. }
  rewrite (fence_match_whole _ _ Hat). reflexivity.
Qed.

Lemma stripCodeFence_empty_fence_witness :
  includes "Result: " "`" = false /\ (toLowerCase "Json" = "json" \/ "Json" = "") /\
  trim_start " " = "" /\
  stripCodeFence ("Result: " ++ "```" ++ "Json" ++ " " ++ "```" ++ " [1]") =
  ("Result: " ++ "```" ++ "Json" ++ " " ++ "```" ++ " [1]").
Proof.
  split; [reflexivity|]. split; [left; reflexivity|]. split; [reflexivity|].
  apply stripCodeFence_empty_fence; [reflexivity | left; reflexivity | reflexivity].
Defined.

Lemma fence_body_text (ws1 body ws2 post : string) (c0 : ascii) (b0 : string) :
  trim_start ws1 = "" -> trim_start ws2 = "" ->
  body = String c0 b0 -> is_ws c0 = false ->
  (forall c1 r, rev_string body = String c1 r -> is_ws c1 = false) ->
  includes body "`" = false ->
  fence_body (ws1 ++ body ++ ws2 ++ "```" ++ post) = Some body.
Proof.
  intros H1 H2 Hb Hc0 Hl Hi. unfold fence_body.
  rewrite trim_start_app_ws by exact H1.
  rewrite Hb at 1. rewrite string_append_cons, trim_start_visible by exact Hc0.
  rewrite <- string_append_cons, <- Hb.
  apply lazy_capture_body; [exact Hi | exact Hl | apply lazy_capture_closing, H2].
Qed.

(** X6: for a reply made of backtick-free prose, an opening fence with an
    optional json tag, white space, a backtick-free body with visible first
    and last characters, white space and a closing fence, [stripCodeFence]
    returns exactly the body. *)
Theorem stripCodeFence_fenced_body (pre tag ws1 body ws2 post : string)
    (c0 c1 : ascii) (b0 b1 : string) :
  includes pre "`" = false ->
  toLowerCase tag = "json" \/ (tag = "" /\ lower_char c0 <> "j"%char) ->
  trim_start ws1 = "" -> trim_start ws2 = "" ->
  body = String c0 b0 -> is_ws c0 = false ->
  rev_string body = String c1 b1 -> is_ws c1 = false ->
  includes body "`" = false ->
  stripCodeFence (pre ++ "```" ++ tag ++ ws1 ++ body ++ ws2 ++ "```" ++ post) = body.
Proof.
  intros Hpre Htag H1 H2 Hb Hc0 Hr Hc1 Hi.
  assert (Hl : forall c r, rev_string body = String c r -> is_ws c = false)
    by (intros c r E; rewrite Hr in E; injection E as <- _; exact Hc1).
  unfold stripCodeFence. rewrite fence_match_skip by exact Hpre.
  assert (Hat : fence_match_at ("```" ++ tag ++ ws1 ++ body ++ ws2 ++ "```" ++ post) = Some body).
  { rewrite fence_match_at_open. destruct Htag as [Htag | [-> Hj]].
    - destruct (prefix_json_tag tag (ws1 ++ body ++ ws2 ++ "```" ++ post) Htag) as [-> ->].
      rewrite (fence_body_text ws1 body ws2 post c0 b0); auto.
    - rewrite string_append_nil_l.
      rewrite (prefix_json_ws ws1 (body ++ ws2 ++ "```" ++ post) c0 (b0 ++ ws2 ++ "```" ++ post))
        by (first [exact H1 | exact Hj | rewrite Hb; reflexivity]).
      rewrite (fence_body_text ws1 body ws2 post c0 b0); auto. }
  rewrite (fence_match_whole _ _ Hat). rewrite Hb. reflexivity.
Qed.

Lemma stripCodeFence_fenced_body_witness :
  let nl := String (ascii_of_nat 10) "" in
  stripCodeFence ("Here: " ++ "```" ++ "JSON" ++ nl ++ "[1, 2]" ++ nl ++ "```" ++ " done") =
  "[1, 2]".
Proof.
  intros nl.
  apply (stripCodeFence_fenced_body "Here: " "JSON" nl "[1, 2]" nl " done" "[" "]" "1, 2]" "2 ,1[");
    first [reflexivity | left; reflexivity].
Defined.
